(** * A shallow embedding of [classes/Object.py] (NMSDK scene-node builder)

    Python objects live in a heap [nat -> Obj]; an object is a record of the
    instance attributes the source assigns.  Methods that mutate objects or
    raise exceptions run in [PyM], a state monad over the heap whose result is
    either a value or a Python exception.  A raised exception keeps the heap
    mutations done before it, as in Python.  Recursion over parent or child
    links carries a fuel argument: running out of it is Python's
    [RecursionError]. *)

From Stdlib Require Import String List Bool Arith Lia ZArith QArith.
Import ListNotations.
Close Scope Q_scope.
Open Scope string_scope.
Open Scope list_scope.
Set Warnings "-register-all".


(** ** Values and exceptions *)

(** Python values passed through the exporter.  [VExt] stands for an object
    of one of the opaque data classes ([TkTransformData], [TkMaterialData]). *)
Inductive Value : Type :=
| VNone
| VBool (b : bool)
| VInt (z : Z)
| VFloat (q : Q)
| VStr (s : string)
| VExt (descr : string).

Definition is_none (v : Value) : bool :=
  match v with VNone => true | _ => false end.

(** [v == s] for a string literal [s]. *)
Definition py_eq_str (v : Value) (s : string) : bool :=
  match v with VStr t => String.eqb t s | _ => false end.

Inductive exn : Type :=
| KeyError (key : string)
| AttributeError (attr : string)
| TypeError (msg : string)
| RecursionError.

Inductive result (A : Type) : Type :=
| Ok (a : A)
| Err (e : exn).
Arguments Ok {A} a.
Arguments Err {A} e.

Definition rbind {A B} (r : result A) (k : A -> result B) : result B :=
  match r with Ok a => k a | Err e => Err e end.

(** ** Data classes of the repository that are not part of [src/]

    Modelled from the spec: [TkSceneNodeAttributeData(Name, Value)] is a
    (name, value) pair and [TkSceneNodeData(Name, Type, Transform,
    Attributes, Children)] the output record with those five fields (spec,
    section 6).  The list class [List] is a Python list.  Children of a record
    are whatever [get_data()] returned for each child, so they are optional
    records. *)
Record TkSceneNodeAttributeData : Type := mkAttr {
  attr_Name : string;
  attr_Value : Value
}.

Inductive TkSceneNodeData : Type :=
| mkSND (sn_Name : string) (sn_Type : string) (sn_Transform : Value)
        (sn_Attributes : option (list TkSceneNodeAttributeData))
        (sn_Children : option (list (option TkSceneNodeData))).

Definition sn_Children (d : TkSceneNodeData) :=
  match d with mkSND _ _ _ _ c => c end.
Definition sn_Name (d : TkSceneNodeData) :=
  match d with mkSND n _ _ _ _ => n end.

(** ** Objects *)

(** The classes of [Object.py]; every variant derives directly from [Object]. *)
Inductive Cls : Type :=
| CObject | CLocator | CJoint | CEmitter | CMesh | CCollision | CModel | CReference.

Definition Cls_eqb (a b : Cls) : bool :=
  match a, b with
  | CObject, CObject | CLocator, CLocator | CJoint, CJoint | CEmitter, CEmitter
  | CMesh, CMesh | CCollision, CCollision | CModel, CModel
  | CReference, CReference => true
  | _, _ => false
  end.

(** [issubclass(a, b)] *)
Definition issubclass (a b : Cls) : bool := Cls_eqb a b || Cls_eqb b CObject.

(** Attributes only some variants assign ([VNone] when never assigned, which
    is what [self.__dict__.get(name, None)] reads for them). *)
Record Extra : Type := mkExtra {
  hasAttachment : Value;
  Vertices : Value;
  Indexes : Value;
  Material : Value;
  UVs : Value;
  Normals : Value;
  Tangents : Value;
  CType : Value;
  Width : Value;
  Height : Value;
  Depth : Value;
  Radius : Value;
  Scenegraph : Value
}.

(** An instance: [Attributes], [NodeData] and [Child_Nodes] hold [None] as
    [None]; [ListOfMeshes] is [None] when the attribute does not exist (only
    [Model.__init__] creates it). *)
Record Obj : Type := mkObj {
  cls : Cls;
  Name : string;
  Type_ : string;
  Transform : Value;
  Attributes : option (list TkSceneNodeAttributeData);
  Children : list nat;
  Parent : option nat;
  IsMesh : bool;
  NodeData : option TkSceneNodeData;
  ID : option nat;
  provided_streams : list string;
  Child_Nodes : option (list (option TkSceneNodeData));
  ListOfMeshes : option (list nat);
  extra : Extra
}.

Definition set_Name (o : Obj) v : Obj :=
  match o with
  | mkObj x_cls x_Name x_Type_ x_Transform x_Attributes x_Children x_Parent x_IsMesh x_NodeData x_ID x_provided_streams x_Child_Nodes x_ListOfMeshes x_extra =>
    mkObj x_cls v x_Type_ x_Transform x_Attributes x_Children x_Parent x_IsMesh x_NodeData x_ID x_provided_streams x_Child_Nodes x_ListOfMeshes x_extra
  end.
Definition set_Type_ (o : Obj) v : Obj :=
  match o with
  | mkObj x_cls x_Name x_Type_ x_Transform x_Attributes x_Children x_Parent x_IsMesh x_NodeData x_ID x_provided_streams x_Child_Nodes x_ListOfMeshes x_extra =>
    mkObj x_cls x_Name v x_Transform x_Attributes x_Children x_Parent x_IsMesh x_NodeData x_ID x_provided_streams x_Child_Nodes x_ListOfMeshes x_extra
  end.
Definition set_Attributes (o : Obj) v : Obj :=
  match o with
  | mkObj x_cls x_Name x_Type_ x_Transform x_Attributes x_Children x_Parent x_IsMesh x_NodeData x_ID x_provided_streams x_Child_Nodes x_ListOfMeshes x_extra =>
    mkObj x_cls x_Name x_Type_ x_Transform v x_Children x_Parent x_IsMesh x_NodeData x_ID x_provided_streams x_Child_Nodes x_ListOfMeshes x_extra
  end.
Definition set_Children (o : Obj) v : Obj :=
  match o with
  | mkObj x_cls x_Name x_Type_ x_Transform x_Attributes x_Children x_Parent x_IsMesh x_NodeData x_ID x_provided_streams x_Child_Nodes x_ListOfMeshes x_extra =>
    mkObj x_cls x_Name x_Type_ x_Transform x_Attributes v x_Parent x_IsMesh x_NodeData x_ID x_provided_streams x_Child_Nodes x_ListOfMeshes x_extra
  end.
Definition set_Parent (o : Obj) v : Obj :=
  match o with
  | mkObj x_cls x_Name x_Type_ x_Transform x_Attributes x_Children x_Parent x_IsMesh x_NodeData x_ID x_provided_streams x_Child_Nodes x_ListOfMeshes x_extra =>
    mkObj x_cls x_Name x_Type_ x_Transform x_Attributes x_Children v x_IsMesh x_NodeData x_ID x_provided_streams x_Child_Nodes x_ListOfMeshes x_extra
  end.
Definition set_IsMesh (o : Obj) v : Obj :=
  match o with
  | mkObj x_cls x_Name x_Type_ x_Transform x_Attributes x_Children x_Parent x_IsMesh x_NodeData x_ID x_provided_streams x_Child_Nodes x_ListOfMeshes x_extra =>
    mkObj x_cls x_Name x_Type_ x_Transform x_Attributes x_Children x_Parent v x_NodeData x_ID x_provided_streams x_Child_Nodes x_ListOfMeshes x_extra
  end.
Definition set_NodeData (o : Obj) v : Obj :=
  match o with
  | mkObj x_cls x_Name x_Type_ x_Transform x_Attributes x_Children x_Parent x_IsMesh x_NodeData x_ID x_provided_streams x_Child_Nodes x_ListOfMeshes x_extra =>
    mkObj x_cls x_Name x_Type_ x_Transform x_Attributes x_Children x_Parent x_IsMesh v x_ID x_provided_streams x_Child_Nodes x_ListOfMeshes x_extra
  end.
Definition set_provided_streams (o : Obj) v : Obj :=
  match o with
  | mkObj x_cls x_Name x_Type_ x_Transform x_Attributes x_Children x_Parent x_IsMesh x_NodeData x_ID x_provided_streams x_Child_Nodes x_ListOfMeshes x_extra =>
    mkObj x_cls x_Name x_Type_ x_Transform x_Attributes x_Children x_Parent x_IsMesh x_NodeData x_ID v x_Child_Nodes x_ListOfMeshes x_extra
  end.
Definition set_Child_Nodes (o : Obj) v : Obj :=
  match o with
  | mkObj x_cls x_Name x_Type_ x_Transform x_Attributes x_Children x_Parent x_IsMesh x_NodeData x_ID x_provided_streams x_Child_Nodes x_ListOfMeshes x_extra =>
    mkObj x_cls x_Name x_Type_ x_Transform x_Attributes x_Children x_Parent x_IsMesh x_NodeData x_ID x_provided_streams v x_ListOfMeshes x_extra
  end.
Definition set_ListOfMeshes (o : Obj) v : Obj :=
  match o with
  | mkObj x_cls x_Name x_Type_ x_Transform x_Attributes x_Children x_Parent x_IsMesh x_NodeData x_ID x_provided_streams x_Child_Nodes x_ListOfMeshes x_extra =>
    mkObj x_cls x_Name x_Type_ x_Transform x_Attributes x_Children x_Parent x_IsMesh x_NodeData x_ID x_provided_streams x_Child_Nodes v x_extra
  end.
Definition set_extra (o : Obj) v : Obj :=
  match o with
  | mkObj x_cls x_Name x_Type_ x_Transform x_Attributes x_Children x_Parent x_IsMesh x_NodeData x_ID x_provided_streams x_Child_Nodes x_ListOfMeshes x_extra =>
    mkObj x_cls x_Name x_Type_ x_Transform x_Attributes x_Children x_Parent x_IsMesh x_NodeData x_ID x_provided_streams x_Child_Nodes x_ListOfMeshes v
  end.

Definition set_hasAttachment (o : Extra) v : Extra :=
  match o with
  | mkExtra x_hasAttachment x_Vertices x_Indexes x_Material x_UVs x_Normals x_Tangents x_CType x_Width x_Height x_Depth x_Radius x_Scenegraph =>
    mkExtra v x_Vertices x_Indexes x_Material x_UVs x_Normals x_Tangents x_CType x_Width x_Height x_Depth x_Radius x_Scenegraph
  end.
Definition set_Vertices (o : Extra) v : Extra :=
  match o with
  | mkExtra x_hasAttachment x_Vertices x_Indexes x_Material x_UVs x_Normals x_Tangents x_CType x_Width x_Height x_Depth x_Radius x_Scenegraph =>
    mkExtra x_hasAttachment v x_Indexes x_Material x_UVs x_Normals x_Tangents x_CType x_Width x_Height x_Depth x_Radius x_Scenegraph
  end.
Definition set_Indexes (o : Extra) v : Extra :=
  match o with
  | mkExtra x_hasAttachment x_Vertices x_Indexes x_Material x_UVs x_Normals x_Tangents x_CType x_Width x_Height x_Depth x_Radius x_Scenegraph =>
    mkExtra x_hasAttachment x_Vertices v x_Material x_UVs x_Normals x_Tangents x_CType x_Width x_Height x_Depth x_Radius x_Scenegraph
  end.
Definition set_Material (o : Extra) v : Extra :=
  match o with
  | mkExtra x_hasAttachment x_Vertices x_Indexes x_Material x_UVs x_Normals x_Tangents x_CType x_Width x_Height x_Depth x_Radius x_Scenegraph =>
    mkExtra x_hasAttachment x_Vertices x_Indexes v x_UVs x_Normals x_Tangents x_CType x_Width x_Height x_Depth x_Radius x_Scenegraph
  end.
Definition set_UVs (o : Extra) v : Extra :=
  match o with
  | mkExtra x_hasAttachment x_Vertices x_Indexes x_Material x_UVs x_Normals x_Tangents x_CType x_Width x_Height x_Depth x_Radius x_Scenegraph =>
    mkExtra x_hasAttachment x_Vertices x_Indexes x_Material v x_Normals x_Tangents x_CType x_Width x_Height x_Depth x_Radius x_Scenegraph
  end.
Definition set_Normals (o : Extra) v : Extra :=
  match o with
  | mkExtra x_hasAttachment x_Vertices x_Indexes x_Material x_UVs x_Normals x_Tangents x_CType x_Width x_Height x_Depth x_Radius x_Scenegraph =>
    mkExtra x_hasAttachment x_Vertices x_Indexes x_Material x_UVs v x_Tangents x_CType x_Width x_Height x_Depth x_Radius x_Scenegraph
  end.
Definition set_Tangents (o : Extra) v : Extra :=
  match o with
  | mkExtra x_hasAttachment x_Vertices x_Indexes x_Material x_UVs x_Normals x_Tangents x_CType x_Width x_Height x_Depth x_Radius x_Scenegraph =>
    mkExtra x_hasAttachment x_Vertices x_Indexes x_Material x_UVs x_Normals v x_CType x_Width x_Height x_Depth x_Radius x_Scenegraph
  end.
Definition set_CType (o : Extra) v : Extra :=
  match o with
  | mkExtra x_hasAttachment x_Vertices x_Indexes x_Material x_UVs x_Normals x_Tangents x_CType x_Width x_Height x_Depth x_Radius x_Scenegraph =>
    mkExtra x_hasAttachment x_Vertices x_Indexes x_Material x_UVs x_Normals x_Tangents v x_Width x_Height x_Depth x_Radius x_Scenegraph
  end.
Definition set_Width (o : Extra) v : Extra :=
  match o with
  | mkExtra x_hasAttachment x_Vertices x_Indexes x_Material x_UVs x_Normals x_Tangents x_CType x_Width x_Height x_Depth x_Radius x_Scenegraph =>
    mkExtra x_hasAttachment x_Vertices x_Indexes x_Material x_UVs x_Normals x_Tangents x_CType v x_Height x_Depth x_Radius x_Scenegraph
  end.
Definition set_Height (o : Extra) v : Extra :=
  match o with
  | mkExtra x_hasAttachment x_Vertices x_Indexes x_Material x_UVs x_Normals x_Tangents x_CType x_Width x_Height x_Depth x_Radius x_Scenegraph =>
    mkExtra x_hasAttachment x_Vertices x_Indexes x_Material x_UVs x_Normals x_Tangents x_CType x_Width v x_Depth x_Radius x_Scenegraph
  end.
Definition set_Depth (o : Extra) v : Extra :=
  match o with
  | mkExtra x_hasAttachment x_Vertices x_Indexes x_Material x_UVs x_Normals x_Tangents x_CType x_Width x_Height x_Depth x_Radius x_Scenegraph =>
    mkExtra x_hasAttachment x_Vertices x_Indexes x_Material x_UVs x_Normals x_Tangents x_CType x_Width x_Height v x_Radius x_Scenegraph
  end.
Definition set_Radius (o : Extra) v : Extra :=
  match o with
  | mkExtra x_hasAttachment x_Vertices x_Indexes x_Material x_UVs x_Normals x_Tangents x_CType x_Width x_Height x_Depth x_Radius x_Scenegraph =>
    mkExtra x_hasAttachment x_Vertices x_Indexes x_Material x_UVs x_Normals x_Tangents x_CType x_Width x_Height x_Depth v x_Scenegraph
  end.
Definition set_Scenegraph (o : Extra) v : Extra :=
  match o with
  | mkExtra x_hasAttachment x_Vertices x_Indexes x_Material x_UVs x_Normals x_Tangents x_CType x_Width x_Height x_Depth x_Radius x_Scenegraph =>
    mkExtra x_hasAttachment x_Vertices x_Indexes x_Material x_UVs x_Normals x_Tangents x_CType x_Width x_Height x_Depth x_Radius v
  end.

(** ** Heap and the exception-carrying state monad *)

Definition heap := nat -> Obj.

Definition upd (h : heap) (x : nat) (o : Obj) : heap :=
  fun y => if Nat.eqb y x then o else h y.

Definition PyM (A : Type) := heap -> heap * result A.

Definition ret {A} (a : A) : PyM A := fun h => (h, Ok a).
Definition raise {A} (e : exn) : PyM A := fun h => (h, Err e).
Definition bind {A B} (m : PyM A) (k : A -> PyM B) : PyM B :=
  fun h => match m h with
           | (h', Ok a) => k a h'
           | (h', Err e) => (h', Err e)
           end.

Notation "x <- m ;; k" := (bind m (fun x => k))
  (at level 61, m at next level, right associativity).
Notation "m ;; k" := (bind m (fun _ => k))
  (at level 61, right associativity).

(** Reading and writing an attribute of the object [x]. *)
Definition get (x : nat) : PyM Obj := fun h => (h, Ok (h x)).
Definition modify (x : nat) (f : Obj -> Obj) : PyM unit :=
  fun h => (upd h x (f (h x)), Ok tt).

(** ** Construction ([__init__] methods) *)

(** Keyword arguments and [kwargs.get(key, default)]. *)
Definition kwargs := list (string * Value).

Definition kwget (kw : kwargs) (k : string) (d : Value) : Value :=
  match find (fun p => String.eqb (fst p) k) kw with
  | Some (_, v) => v
  | None => d
  end.

(** Modelled from the spec: the default values of the data classes, opaque to
    this code. *)
Definition default_transform : Value := VExt "TkTransformData()".
Definition default_material : Value := VExt "TkMaterialData(Name='EMPTY')".

Definition blank_extra : Extra :=
  mkExtra VNone VNone VNone VNone VNone VNone VNone VNone VNone VNone VNone VNone VNone.

(** A freshly allocated instance of class [c], before [__init__] runs. *)
Definition new_instance (c : Cls) : Obj :=
  mkObj c "" "" VNone None [] None false None None [] None None blank_extra.

(** [Object.__init__(self, **kwargs)] *)
Definition Object___init__ (self : Obj) (kw : kwargs) : Obj :=
  match self with
  | mkObj c n t _ _ _ _ _ _ _ _ cn lm ex =>
      mkObj c n t (kwget kw "Transform" default_transform) None [] None false
            None None [] cn lm ex
  end.

(** [super(C, self).__init__(kwargs)]: [super] requires [self] to be an
    instance of [C]; the next class in the MRO is [Object] for every class
    of the file. *)
Definition super___init__ (C : Cls) (self : Obj) (kw : kwargs) : result Obj :=
  if issubclass (cls self) C then Ok (Object___init__ self kw)
  else Err (TypeError "super(type, obj): obj must be an instance or subtype of type").

(** [set.union(set([name]))] on a set kept as a duplicate-free list. *)
Definition set_add (s : list string) (x : string) : list string :=
  if existsb (String.eqb x) s then s else s ++ [x].

(** [self.__dict__.get(name, None)] for the stream attribute names. *)
Definition dict_get (o : Obj) (name : string) : Value :=
  if String.eqb name "Vertices" then Vertices (extra o)
  else if String.eqb name "Indexes" then Indexes (extra o)
  else if String.eqb name "UVs" then UVs (extra o)
  else if String.eqb name "Normals" then Normals (extra o)
  else if String.eqb name "Tangents" then Tangents (extra o)
  else VNone.

Definition stream_names : list string :=
  ["Vertices"; "Indexes"; "UVs"; "Normals"; "Tangents"].

(** The loop of [determine_included_streams]. *)
Fixpoint included_streams_loop (names : list string) (o : Obj) : Obj :=
  match names with
  | [] => o
  | name :: rest =>
      let o := if negb (is_none (dict_get o name))
               then set_provided_streams o (set_add (provided_streams o) name)
               else o in
      included_streams_loop rest o
  end.

Definition determine_included_streams (self : Obj) : Obj :=
  included_streams_loop stream_names self.

Definition Locator___init__ (self : Obj) (name : string) (kw : kwargs) : result Obj :=
  rbind (super___init__ CLocator self kw) (fun o =>
  let o := set_Name o name in
  let o := set_Type_ o "LOCATOR" in
  Ok (set_extra o (set_hasAttachment (extra o) (kwget kw "ATTACHMENT" (VBool false))))).

(** [Joint.__init__] and [Emitter.__init__] call [super(Locator, self)]. *)
Definition Joint___init__ (self : Obj) (name : string) (kw : kwargs) : result Obj :=
  rbind (super___init__ CLocator self kw) (fun o =>
  let o := set_Name o name in
  Ok (set_Type_ o "JOINT")).

Definition Emitter___init__ (self : Obj) (name : string) (kw : kwargs) : result Obj :=
  rbind (super___init__ CLocator self kw) (fun o =>
  let o := set_Name o name in
  Ok (set_Type_ o "EMITTER")).

Definition Mesh___init__ (self : Obj) (name : string) (kw : kwargs) : result Obj :=
  rbind (super___init__ CMesh self kw) (fun o =>
  let o := set_Name o name in
  let o := set_Type_ o "MESH" in
  let e := extra o in
  let e := set_Vertices e (kwget kw "Vertices" VNone) in
  let e := set_Indexes e (kwget kw "Indexes" VNone) in
  let e := set_Material e (kwget kw "Material" default_material) in
  let e := set_UVs e (kwget kw "UVs" VNone) in
  let e := set_Normals e (kwget kw "Normals" VNone) in
  let e := set_Tangents e (kwget kw "Tangents" VNone) in
  let o := set_extra o e in
  let o := set_IsMesh o true in
  Ok (determine_included_streams o)).

Definition Collision___init__ (self : Obj) (name : string) (kw : kwargs) : result Obj :=
  rbind (super___init__ CCollision self kw) (fun o =>
  let o := set_Name o name in
  let o := set_Type_ o "COLLISION" in
  let o := set_extra o (set_CType (extra o) (kwget kw "CollisionType" (VStr "Mesh"))) in
  if py_eq_str (CType (extra o)) "Mesh" then
    let o := set_IsMesh o true in
    let e := extra o in
    let e := set_Vertices e (kwget kw "Vertices" VNone) in
    let e := set_Indexes e (kwget kw "Indexes" VNone) in
    let e := set_Material e VNone in
    let e := set_UVs e (kwget kw "UVs" VNone) in
    let e := set_Normals e (kwget kw "Normals" VNone) in
    let e := set_Tangents e (kwget kw "Tangents" VNone) in
    Ok (determine_included_streams (set_extra o e))
  else
    let e := extra o in
    let e := set_Width e (kwget kw "Width" (VInt 0)) in
    let e := set_Height e (kwget kw "Height" (VInt 0)) in
    let e := set_Depth e (kwget kw "Depth" (VInt 0)) in
    let e := set_Radius e (kwget kw "Radius" (VInt 0)) in
    Ok (set_extra o e)).

Definition Model___init__ (self : Obj) (name : string) (kw : kwargs) : result Obj :=
  rbind (super___init__ CModel self kw) (fun o =>
  let o := set_Name o name in
  let o := set_Type_ o "MODEL" in
  Ok (set_ListOfMeshes o (Some []))).

Definition Reference___init__ (self : Obj) (name : string) (kw : kwargs) : result Obj :=
  rbind (super___init__ CReference self kw) (fun o =>
  let o := set_Name o name in
  let o := set_Type_ o "REFERENCE" in
  Ok (set_extra o (set_Scenegraph (extra o) (kwget kw "Scenegraph"
        (VStr "Enter in the path of the SCENE.MBIN you want to reference here."))))).

(** Instantiation [Cls(Name, **kwargs)]. *)
Definition Locator (name : string) (kw : kwargs) := Locator___init__ (new_instance CLocator) name kw.
Definition Joint (name : string) (kw : kwargs) := Joint___init__ (new_instance CJoint) name kw.
Definition Emitter (name : string) (kw : kwargs) := Emitter___init__ (new_instance CEmitter) name kw.
Definition Mesh (name : string) (kw : kwargs) := Mesh___init__ (new_instance CMesh) name kw.
Definition Collision (name : string) (kw : kwargs) := Collision___init__ (new_instance CCollision) name kw.
Definition Model (name : string) (kw : kwargs) := Model___init__ (new_instance CModel) name kw.
Definition Reference (name : string) (kw : kwargs) := Reference___init__ (new_instance CReference) name kw.

(** ** Tree assembly *)

(** [populate_meshlist(self, obj)]: pass [obj] up the [Parent] chain and
    append it to [ListOfMeshes] of the parentless object reached. *)
Fixpoint populate_meshlist (fuel : nat) (self obj : nat) : PyM unit :=
  match fuel with
  | 0 => raise RecursionError
  | S f =>
      o <- get self ;;
      match Parent o with
      | Some p => populate_meshlist f p obj
      | None =>
          match ListOfMeshes o with
          | Some l => modify self (fun o => set_ListOfMeshes o (Some (l ++ [obj])))
          | None => raise (AttributeError "ListOfMeshes")
          end
      end
  end.

(** [give_parent(self, parent)] *)
Definition give_parent (self parent : nat) : PyM unit :=
  modify self (fun o => set_Parent o (Some parent)).

(** [add_child(self, child)] *)
Definition add_child (fuel : nat) (self child : nat) : PyM unit :=
  modify self (fun o => set_Children o (Children o ++ [child])) ;;
  give_parent child self ;;
  c <- get child ;;
  if IsMesh c then populate_meshlist fuel self child else ret tt.

(** A sequence of [add_child] calls [(parent, child)], stopping at the first
    exception. *)
Fixpoint add_children (fuel : nat) (calls : list (nat * nat)) : PyM unit :=
  match calls with
  | [] => ret tt
  | (p, c) :: rest => add_child fuel p c ;; add_children fuel rest
  end.

(** ** Building the output records *)

(** [get_data(self)] *)
Definition get_data (self : nat) : PyM (option TkSceneNodeData) :=
  o <- get self ;; ret (NodeData o).

(** [self.Child_Nodes.append(d)]; [None] has no [append]. *)
Definition append_child_node (self : nat) (d : option TkSceneNodeData) : PyM unit :=
  o <- get self ;;
  match Child_Nodes o with
  | Some l => modify self (fun o => set_Child_Nodes o (Some (l ++ [d])))
  | None => raise (AttributeError "append")
  end.

(** The loop [for child in self.Children: child.construct_data();
    self.Child_Nodes.append(child.get_data())], given the method to call on
    each child. *)
Fixpoint construct_children (cd : nat -> PyM (option TkSceneNodeData))
         (self : nat) (l : list nat) : PyM unit :=
  match l with
  | [] => ret tt
  | child :: rest =>
      cd child ;;
      d <- get_data child ;;
      append_child_node self d ;;
      construct_children cd self rest
  end.

(** [construct_data(self)]: the Python method has no [return] statement, so
    it returns [None]. *)
Fixpoint construct_data (fuel : nat) (self : nat) : PyM (option TkSceneNodeData) :=
  match fuel with
  | 0 => raise RecursionError
  | S f =>
      o <- get self ;;
      (if Nat.eqb (length (Children o)) 0
       then modify self (fun o => set_Child_Nodes o None)
       else modify self (fun o => set_Child_Nodes o (Some [])) ;;
            construct_children (construct_data f) self (Children o)) ;;
      o <- get self ;;
      modify self (fun o =>
        set_NodeData o (Some (mkSND (Name o) (Type_ o) (Transform o)
                                    (Attributes o) (Child_Nodes o)))) ;;
      ret None
  end.

(** ** Attributes *)

(** External data: [None] or a mapping from keys to values. *)
Definition data_t := option (list (string * Value)).

Definition assoc (k : string) (d : list (string * Value)) : option Value :=
  match find (fun p => String.eqb (fst p) k) d with
  | Some (_, v) => Some v
  | None => None
  end.

(** [data[k]] *)
Definition getitem (data : data_t) (k : string) : PyM Value :=
  match data with
  | None => raise (TypeError "'NoneType' object is not subscriptable")
  | Some d => match assoc k d with
              | Some v => ret v
              | None => raise (KeyError k)
              end
  end.

Definition set_attrs (self : nat) (l : list TkSceneNodeAttributeData) : PyM unit :=
  modify self (fun o => set_Attributes o (Some l)).

(** [self.Attributes.append(a)] *)
Definition append_attr (self : nat) (a : TkSceneNodeAttributeData) : PyM unit :=
  modify self (fun o =>
    set_Attributes o (match Attributes o with
                      | Some l => Some (l ++ [a])
                      | None => Some [a]
                      end)).

Definition Locator_create_attributes (self : nat) (data : data_t) : PyM unit :=
  match data with
  | None => ret tt
  | Some _ =>
      v <- getitem data "ATTACHMENT" ;;
      set_attrs self [mkAttr "ATTACHMENT" v]
  end.

Definition Joint_create_attributes (self : nat) (data : data_t) : PyM unit :=
  match data with
  | None => ret tt
  | Some _ =>
      v <- getitem data "JOINTINDEX" ;;
      set_attrs self [mkAttr "JOINTINDEX" v]
  end.

Definition Emitter_create_attributes (self : nat) (data : data_t) : PyM unit :=
  match data with
  | None => ret tt
  | Some _ =>
      v1 <- getitem data "MATERIAL" ;;
      v2 <- getitem data "DATA" ;;
      set_attrs self [mkAttr "MATERIAL" v1; mkAttr "DATA" v2]
  end.

Definition Mesh_create_attributes (self : nat) (data : data_t) : PyM unit :=
  v1 <- getitem data "BATCHSTART" ;;
  v2 <- getitem data "BATCHCOUNT" ;;
  v3 <- getitem data "VERTRSTART" ;;
  v4 <- getitem data "VERTREND" ;;
  v5 <- getitem data "MATERIAL" ;;
  o <- get self ;;
  v6 <- getitem data "ATTACHMENT" ;;
  set_attrs self [mkAttr "BATCHSTART" v1; mkAttr "BATCHCOUNT" v2;
                  mkAttr "VERTRSTART" v3; mkAttr "VERTREND" v4;
                  mkAttr "FIRSTSKINMAT" (VInt 0); mkAttr "LASTSKINMAT" (VInt 0);
                  mkAttr "MATERIAL" v5; mkAttr "MESHLINK" (VStr (Name o ++ "Shape")%string);
                  mkAttr "ATTACHMENT" v6].

Definition append_from (self : nat) (data : data_t) (k : string) : PyM unit :=
  v <- getitem data k ;; append_attr self (mkAttr k v).

Definition Collision_create_attributes (self : nat) (data : data_t) : PyM unit :=
  o <- get self ;;
  let ct := CType (extra o) in
  set_attrs self [mkAttr "TYPE" ct] ;;
  if py_eq_str ct "Mesh" then
    append_from self data "BATCHSTART" ;;
    append_from self data "BATCHCOUNT" ;;
    append_from self data "VERTRSTART" ;;
    append_from self data "VERTREND" ;;
    append_attr self (mkAttr "FIRSTSKINMAT" (VInt 0)) ;;
    append_attr self (mkAttr "LASTSKINMAT" (VInt 0))
  else if py_eq_str ct "Box" then
    append_from self data "WIDTH" ;;
    append_from self data "HEIGHT" ;;
    append_from self data "DEPTH"
  else if py_eq_str ct "Sphere" then
    append_from self data "RADIUS"
  else if py_eq_str ct "Capsule" || py_eq_str ct "Cylinder" then
    append_from self data "RADIUS" ;;
    append_from self data "HEIGHT"
  else ret tt.

Definition Model_create_attributes (self : nat) (data : data_t) : PyM unit :=
  v <- getitem data "GEOMETRY" ;;
  set_attrs self [mkAttr "GEOMETRY" v].

Definition Reference_create_attributes (self : nat) (data : data_t) : PyM unit :=
  o <- get self ;;
  set_attrs self [mkAttr "SCENEGRAPH" (Scenegraph (extra o))].

(** [self.create_attributes(data)]: dispatch on the class; [Object] has no
    such method. *)
Definition create_attributes (self : nat) (data : data_t) : PyM unit :=
  o <- get self ;;
  match cls o with
  | CObject => raise (AttributeError "create_attributes")
  | CLocator => Locator_create_attributes self data
  | CJoint => Joint_create_attributes self data
  | CEmitter => Emitter_create_attributes self data
  | CMesh => Mesh_create_attributes self data
  | CCollision => Collision_create_attributes self data
  | CModel => Model_create_attributes self data
  | CReference => Reference_create_attributes self data
  end.

(** * Definitions used to state the properties *)

(** The attribute schemas of spec section 4.1: each entry is read from the
    external data under its key, or is a fixed value. *)
Inductive AttrSpec : Type :=
| FromData (k : string)
| Fixed (k : string) (v : Value).

Fixpoint eval_schema (d : list (string * Value)) (s : list AttrSpec)
  : option (list TkSceneNodeAttributeData) :=
  match s with
  | [] => Some []
  | FromData k :: r =>
      match assoc k d with
      | Some v => option_map (cons (mkAttr k v)) (eval_schema d r)
      | None => None
      end
  | Fixed k v :: r => option_map (cons (mkAttr k v)) (eval_schema d r)
  end.

Definition collision_schema (ct : Value) : list AttrSpec :=
  if py_eq_str ct "Mesh" then
    [FromData "BATCHSTART"; FromData "BATCHCOUNT"; FromData "VERTRSTART";
     FromData "VERTREND"; Fixed "FIRSTSKINMAT" (VInt 0); Fixed "LASTSKINMAT" (VInt 0)]
  else if py_eq_str ct "Box" then [FromData "WIDTH"; FromData "HEIGHT"; FromData "DEPTH"]
  else if py_eq_str ct "Sphere" then [FromData "RADIUS"]
  else if py_eq_str ct "Capsule" || py_eq_str ct "Cylinder" then
    [FromData "RADIUS"; FromData "HEIGHT"]
  else [].

Definition attribute_schema (o : Obj) : list AttrSpec :=
  match cls o with
  | CObject => []
  | CLocator => [FromData "ATTACHMENT"]
  | CJoint => [FromData "JOINTINDEX"]
  | CEmitter => [FromData "MATERIAL"; FromData "DATA"]
  | CMesh =>
      [FromData "BATCHSTART"; FromData "BATCHCOUNT"; FromData "VERTRSTART";
       FromData "VERTREND"; Fixed "FIRSTSKINMAT" (VInt 0); Fixed "LASTSKINMAT" (VInt 0);
       FromData "MATERIAL"; Fixed "MESHLINK" (VStr (Name o ++ "Shape")%string);
       FromData "ATTACHMENT"]
  | CCollision => Fixed "TYPE" (CType (extra o)) :: collision_schema (CType (extra o))
  | CModel => [FromData "GEOMETRY"]
  | CReference => [Fixed "SCENEGRAPH" (Scenegraph (extra o))]
  end.

Definition required_keys (o : Obj) : list string :=
  flat_map (fun a => match a with FromData k => [k] | Fixed _ _ => [] end)
           (attribute_schema o).

(** [h'] is [h] with [self.Attributes] replaced by [v] and nothing else
    changed. *)
Definition sets_attributes (h h' : heap) (self : nat)
           (v : option (list TkSceneNodeAttributeData)) : Prop :=
  h' self = set_Attributes (h self) v /\ forall y, y <> self -> h' y = h y.

(** The object of a successful construction (a blank [Object] otherwise). *)
Definition ok_or_blank (r : result Obj) : Obj :=
  match r with Ok o => o | Err _ => new_instance CObject end.

(** A heap holding the single object [o] at address [1]. *)
Definition heap1 (o : Obj) : heap :=
  fun n => if Nat.eqb n 1 then o else new_instance CObject.

(** ** Parent chains *)

(** [desc h r x]: following [Parent] from [x] reaches [r] in one step or
    more, i.e. [x] lies strictly below [r]. *)
Inductive desc (h : heap) (r : nat) : nat -> Prop :=
| desc_parent x : Parent (h x) = Some r -> desc h r x
| desc_step x q : Parent (h x) = Some q -> desc h r q -> desc h r x.

(** [root_path h x r n]: the [Parent] chain from [x] ends, after [n] steps,
    at the parentless object [r]. *)
Inductive root_path (h : heap) : nat -> nat -> nat -> Prop :=
| rp_here x : Parent (h x) = None -> root_path h x x 0
| rp_up x p r n : Parent (h x) = Some p -> root_path h p r n -> root_path h x r (S n).

(** Only [Model.__init__] creates [ListOfMeshes]. *)
Definition registry_only_on_models (h : heap) : Prop :=
  forall x, ListOfMeshes (h x) <> None -> cls (h x) = CModel.

(** [l1] is [l2] with some elements left out, order kept. *)
Inductive subseq {A : Type} : list A -> list A -> Prop :=
| subseq_nil : subseq [] []
| subseq_skip x l1 l2 : subseq l1 l2 -> subseq l1 (x :: l2)
| subseq_take x l1 l2 : subseq l1 l2 -> subseq (x :: l1) (x :: l2).

(** Objects as constructed and not linked yet: no parent, and an empty
    [ListOfMeshes] where there is one. *)
Definition fresh_heap (h : heap) : Prop :=
  forall x, Parent (h x) = None /\
            (ListOfMeshes (h x) = None \/ ListOfMeshes (h x) = Some []).

(** Every parentless object with a [ListOfMeshes] lists exactly the
    mesh-bearing objects below it, once each, in the order of [order]. *)
Definition registries_exact (h : heap) (order : list nat) : Prop :=
  forall r l, Parent (h r) = None -> ListOfMeshes (h r) = Some l ->
    NoDup l /\ (forall m, In m l <-> IsMesh (h m) = true /\ desc h r m) /\
    subseq l order.

(** Along a sequence of [add_child] calls, no attached child already has a
    mesh-bearing object below it when it is attached (as in a top-down
    assembly). *)
Fixpoint attaches_mesh_free_subtrees (fuel : nat) (h : heap)
         (calls : list (nat * nat)) : Prop :=
  match calls with
  | [] => True
  | (p, c) :: rest =>
      (forall m, desc h c m -> IsMesh (h m) = false) /\
      attaches_mesh_free_subtrees fuel (fst (add_child fuel p c h)) rest
  end.

(** The heap after the first two statements of [add_child]. *)
Definition linked (h : heap) (p c : nat) : heap :=
  upd (upd h p (set_Children (h p) (Children (h p) ++ [c]))) c
      (set_Parent (upd h p (set_Children (h p) (Children (h p) ++ [c])) c) (Some p)).

(** A heap holding [o1] at address [1] and [o2] at address [2]. *)
Definition heap2 (o1 o2 : Obj) : heap :=
  fun n => if Nat.eqb n 1 then o1 else if Nat.eqb n 2 then o2 else new_instance CObject.

(** The invariant of a sequence of [add_child] calls whose attached children
    are [done], in call order. *)
Definition assembly_inv (h : heap) (done : list nat) : Prop :=
  (forall x, Parent (h x) <> None <-> In x done) /\
  registries_exact h done /\
  (forall r, Parent (h r) = None -> ListOfMeshes (h r) = None ->
             forall m, desc h r m -> IsMesh (h m) = false).

(** A heap holding [o1], [o2], [o3] at addresses [1], [2], [3]. *)
Definition heap3 (o1 o2 o3 : Obj) : heap :=
  fun n => if Nat.eqb n 1 then o1 else if Nat.eqb n 2 then o2
           else if Nat.eqb n 3 then o3 else new_instance CObject.

(** ** The records [construct_data] builds, as a function of the tree *)

Fixpoint map_opt {A B : Type} (g : A -> option B) (l : list A) : option (list B) :=
  match l with
  | [] => Some []
  | x :: xs => match g x with
               | Some y => option_map (cons y) (map_opt g xs)
               | None => None
               end
  end.

(** The record of [n] computed from the fields [construct_data] reads, within
    [fuel] nested calls. *)
Fixpoint record_of (fuel : nat) (h : heap) (n : nat) : option TkSceneNodeData :=
  match fuel with
  | 0 => None
  | S f =>
      let o := h n in
      match Children o with
      | [] => Some (mkSND (Name o) (Type_ o) (Transform o) (Attributes o) None)
      | cs => option_map (fun rs => mkSND (Name o) (Type_ o) (Transform o) (Attributes o)
                                          (Some (map Some rs)))
                         (map_opt (record_of f h) cs)
      end
  end.

(** [reach h x y]: [y] is [x] or lies below [x] along [Children]. *)
Inductive reach (h : heap) : nat -> nat -> Prop :=
| reach_refl x : reach h x x
| reach_child x y z : In y (Children (h x)) -> reach h y z -> reach h x z.

(** An object with the attributes [construct_data] writes cleared. *)
Definition strip (o : Obj) : Obj := set_NodeData (set_Child_Nodes o None) None.

Definition same_inputs (h h' : heap) : Prop := forall m, strip (h' m) = strip (h m).

(** [m] holds, in [NodeData], the record computed from the tree. *)
Definition built (h : heap) (m : nat) : Prop :=
  exists f r, record_of f h m = Some r /\ NodeData (h m) = Some r.

(** Every node keeps its [NodeData] or ends up built. *)
Definition nd_ok (h h' : heap) : Prop :=
  forall m, NodeData (h' m) = NodeData (h m) \/ built h' m.

(** What a call [construct_data fuel n] does to the heap [h]. *)
Definition construct_data_post (fuel n : nat) (h : heap) : Prop :=
  let (h', res) := construct_data fuel n h in
  same_inputs h h' /\ (forall m, h' m = h m \/ reach h n m) /\ nd_ok h h' /\
  match res with
  | Ok v => v = None /\ (exists r, record_of fuel h n = Some r /\ NodeData (h' n) = Some r) /\
            (forall m, reach h n m -> built h' m)
  | Err _ => record_of fuel h n = None
  end.

(** A small scene: a model [Root] (1) with a locator [L1] (2) and a mesh [M1] (3)
    attached to it in this order. *)
Definition sample_heap : heap :=
  heap3 (ok_or_blank (Model "Root" [])) (ok_or_blank (Locator "L1" []))
        (ok_or_blank (Mesh "M1" [])).
Definition sample_tree : heap := fst (add_children 10 [(1, 2); (1, 3)] sample_heap).

(** The state [Object.__init__] and a class's [__init__] leave an instance of
    class [c] in, for the name [name] and the type tag [tag]. *)
Definition initialised (o : Obj) (c : Cls) (name tag : string) (mesh : bool)
           (kw : kwargs) : Prop :=
  cls o = c /\ Name o = name /\ Type_ o = tag /\ IsMesh o = mesh /\
  Transform o = kwget kw "Transform" default_transform /\ Attributes o = None /\
  Children o = [] /\ Parent o = None /\ NodeData o = None /\
  ListOfMeshes o = (if Cls_eqb c CModel then Some [] else None).

(** * Properties *)

(** ** Heap bookkeeping *)

Lemma upd_eq (h : heap) x o : upd h x o x = o.
Proof. unfold upd. now rewrite Nat.eqb_refl. Qed.

Lemma upd_neq (h : heap) x y o : y <> x -> upd h x o y = h y.
Proof. intro H. unfold upd. now rewrite (proj2 (Nat.eqb_neq y x) H). Qed.

Lemma set_Attributes_twice o a b :
  set_Attributes (set_Attributes o a) b = set_Attributes o b.
Proof. now destruct o. Qed.

Lemma sets_attributes_upd h self v :
  sets_attributes h (upd h self (set_Attributes (h self) v)) self v.
Proof. split; [apply upd_eq | intros; now apply upd_neq]. Qed.

Ltac heap_simpl :=
  repeat (rewrite ?upd_eq, ?set_Attributes_twice in * ).

(** ** Attribute creation *)

(** Each variant's [create_attributes], given a mapping holding every key of
    its schema, sets [Attributes] to the schema's pairs in order. *)
Lemma Attributes_set o v : Attributes (set_Attributes o v) = v.
Proof. now destruct o. Qed.

Lemma extra_set_Attributes o v : extra (set_Attributes o v) = extra o.
Proof. now destruct o. Qed.

Lemma Name_set_Attributes o v : Name (set_Attributes o v) = Name o.
Proof. now destruct o. Qed.

Ltac attrs_step :=
  repeat (rewrite ?upd_eq, ?set_Attributes_twice, ?Attributes_set,
            ?extra_set_Attributes, ?Name_set_Attributes in * ).

(** Closes a goal [r = Ok tt /\ sets_attributes h h' self v] once the run has
    been computed to a composition of updates of [self]. *)
Ltac close_sets :=
  split; [reflexivity|split; [attrs_step; reflexivity|
          intros ? ?; repeat rewrite upd_neq by assumption; reflexivity]].

Ltac split_lookups He :=
  repeat match goal with
  | |- context [assoc ?k ?d] =>
      let E := fresh "E" in
      destruct (assoc k d) eqn:E; cbn in He; try discriminate He
  end.

Lemma create_attributes_schema (h : heap) (self : nat) d l :
  cls (h self) <> CObject ->
  eval_schema d (attribute_schema (h self)) = Some l ->
  let (h', r) := create_attributes self (Some d) h in
  r = Ok tt /\ sets_attributes h h' self (Some l).
Proof.
  intros Hc He. unfold attribute_schema in He.
  unfold create_attributes, bind, get.
  destruct (cls (h self)) eqn:Ecls; try congruence;
  cbn [eval_schema] in He.
  all: unfold Locator_create_attributes, Joint_create_attributes,
    Emitter_create_attributes, Mesh_create_attributes, Collision_create_attributes,
    Model_create_attributes, Reference_create_attributes, append_from, append_attr,
    bind, getitem, set_attrs, modify, ret, get.
  all: cbn beta iota.
  - split_lookups He. injection He as <-. close_sets.
  - split_lookups He. injection He as <-. close_sets.
  - split_lookups He. injection He as <-. close_sets.
  - split_lookups He. injection He as <-. close_sets.
  - unfold collision_schema in He.
    destruct (py_eq_str (CType (extra (h self))) "Mesh");
      [|destruct (py_eq_str (CType (extra (h self))) "Box");
      [|destruct (py_eq_str (CType (extra (h self))) "Sphere");
      [|destruct (py_eq_str (CType (extra (h self))) "Capsule" ||
                  py_eq_str (CType (extra (h self))) "Cylinder")]]];
      cbn in He; split_lookups He; injection He as <-; close_sets.
  - split_lookups He. injection He as <-. close_sets.
  - injection He as <-. close_sets.
Qed.

Lemma create_attributes_missing (h : heap) (self : nat) d k :
  In k (required_keys (h self)) -> assoc k d = None ->
  exists h' k', create_attributes self (Some d) h = (h', Err (KeyError k'))
                /\ assoc k' d = None.
Proof.
  intros Hin Hk. unfold required_keys, attribute_schema in Hin.
  unfold create_attributes, bind, get.
  destruct (cls (h self)) eqn:Ecls; cbn in Hin; try tauto.
  all: unfold Locator_create_attributes, Joint_create_attributes,
    Emitter_create_attributes, Mesh_create_attributes, Collision_create_attributes,
    Model_create_attributes, Reference_create_attributes, append_from, append_attr,
    bind, getitem, set_attrs, modify, ret, get.
  all: cbn beta iota.
  all: try (match goal with E : cls _ = CCollision |- _ => idtac end;
    unfold collision_schema in Hin;
    destruct (py_eq_str (CType (extra (h self))) "Mesh");
      [|destruct (py_eq_str (CType (extra (h self))) "Box");
      [|destruct (py_eq_str (CType (extra (h self))) "Sphere");
      [|destruct (py_eq_str (CType (extra (h self))) "Capsule" ||
                  py_eq_str (CType (extra (h self))) "Cylinder")]]]; cbn in Hin).
  all: repeat match goal with
       | |- context [assoc ?k' ?d0] =>
           let E := fresh "E" in
           destruct (assoc k' d0) eqn:E; [|eexists; eexists; split; [reflexivity|exact E]]
       end.
  all: repeat destruct Hin as [<-|Hin]; try congruence; contradiction.
Qed.

(** ** Streams *)

Lemma set_add_In l x s : In s (set_add l x) <-> In s l \/ s = x.
Proof.
  unfold set_add. destruct (existsb (String.eqb x) l) eqn:E.
  - apply existsb_exists in E as [y [Hy Hxy]]. apply String.eqb_eq in Hxy. subst y.
    split; [tauto|intros [H|H]; [exact H|now subst]].
  - rewrite in_app_iff. cbn. split; intros [H|H]; auto; destruct H; auto; contradiction.
Qed.

Lemma set_add_NoDup l x : NoDup l -> NoDup (set_add l x).
Proof.
  intro Hl. unfold set_add. destruct (existsb (String.eqb x) l) eqn:E; [exact Hl|].
  apply NoDup_app; [exact Hl|constructor; [intros []|constructor]|].
  intros y Hy [->|[]]. assert (existsb (String.eqb y) l = true) as E'
    by (apply existsb_exists; exists y; split; [exact Hy|apply String.eqb_refl]).
  congruence.
Qed.

Lemma extra_set_provided_streams o v : extra (set_provided_streams o v) = extra o.
Proof. now destruct o. Qed.

Lemma provided_streams_set o v : provided_streams (set_provided_streams o v) = v.
Proof. now destruct o. Qed.

Lemma included_streams_loop_spec names o :
  NoDup (provided_streams o) ->
  let o' := included_streams_loop names o in
  NoDup (provided_streams o') /\ extra o' = extra o /\
  (forall s, In s (provided_streams o') <->
             In s (provided_streams o) \/ (In s names /\ dict_get o s <> VNone)).
Proof.
  revert o. induction names as [|n names IH]; intros o Hnd; cbn zeta.
  - cbn. repeat split; auto. intros [H|[[] _]]. exact H.
  - cbn [included_streams_loop].
    destruct (negb (is_none (dict_get o n))) eqn:En.
    + set (o1 := set_provided_streams o (set_add (provided_streams o) n)).
      assert (Hnd1 : NoDup (provided_streams o1))
        by (unfold o1; rewrite provided_streams_set; now apply set_add_NoDup).
      destruct (IH o1 Hnd1) as [H1 [H2 H3]]. split; [exact H1|].
      assert (Hd : forall s, dict_get o1 s = dict_get o s)
        by (intro s; unfold dict_get, o1; now rewrite extra_set_provided_streams).
      split; [rewrite H2; unfold o1; apply extra_set_provided_streams|].
      intro s. rewrite H3, Hd. unfold o1. rewrite provided_streams_set, set_add_In.
      cbn. split.
      * intros [[H|H]|[Hi Hv]]; auto. subst s. right. split; auto.
        destruct (dict_get o n); cbn in En; congruence.
      * intros [H|[[H|H] Hv]]; auto.
    + destruct (IH o Hnd) as [H1 [H2 H3]]. split; [exact H1|split; [exact H2|]].
      intro s. rewrite H3. cbn. split.
      * intros [H|[Hi Hv]]; auto.
      * intros [H|[[H|H] Hv]]; auto. subst s. exfalso. apply Hv.
        destruct (dict_get o n); cbn in En; congruence.
Qed.

(** ** Claims about construction and attributes *)

(** C2 (construction of [Joint] and [Emitter]): [Joint.__init__] and
    [Emitter.__init__] call [super(Locator, self).__init__], and a [Joint] or
    [Emitter] instance is not an instance of [Locator]; so constructing
    either raises [TypeError], whatever the name and keyword arguments. *)
Theorem Joint_Emitter_construct_TypeError (name : string) (kw : kwargs) :
  Joint name kw = Err (TypeError "super(type, obj): obj must be an instance or subtype of type") /\
  Emitter name kw = Err (TypeError "super(type, obj): obj must be an instance or subtype of type").
Proof. split; reflexivity. Qed.

(** C5 (provided streams of a Mesh): constructing a [Mesh] never raises, and
    its [provided_streams] holds exactly, once each, the names among
    Vertices, Indexes, UVs, Normals and Tangents whose keyword argument was
    supplied with a value other than [None]. *)
Theorem Mesh_provided_streams (name : string) (kw : kwargs) :
  exists o, Mesh name kw = Ok o /\ NoDup (provided_streams o) /\
    forall s, In s (provided_streams o) <->
              In s stream_names /\ kwget kw s VNone <> VNone.
Proof.
  eexists. split; [reflexivity|].
  match goal with
  | |- context [determine_included_streams ?o] =>
      destruct (included_streams_loop_spec stream_names o (NoDup_nil _))
        as [H1 [_ H3]]
  end.
  split; [exact H1|]. intro s. unfold determine_included_streams. rewrite H3.
  cbn [provided_streams set_IsMesh set_extra set_Type_ set_Name Object___init__
       new_instance]. split.
  - intros [[]|[Hi Hv]]. split; [exact Hi|].
    repeat destruct Hi as [<-|Hi]; try contradiction; exact Hv.
  - intros [Hi Hv]. right. split; [exact Hi|].
    repeat destruct Hi as [<-|Hi]; try contradiction; exact Hv.
Qed.

(** C6 (Collision attributes): for a [Collision] object, when the data holds
    the keys its sub-type needs, [create_attributes] sets [Attributes] to
    [(TYPE, CType)] followed by the sub-type's pairs: BATCHSTART, BATCHCOUNT,
    VERTRSTART, VERTREND, FIRSTSKINMAT = 0, LASTSKINMAT = 0 for Mesh; WIDTH,
    HEIGHT, DEPTH for Box; RADIUS for Sphere; RADIUS, HEIGHT for Capsule and
    Cylinder; and changes nothing else. *)
Theorem Collision_create_attributes_layout (h : heap) (self : nat) d l :
  cls (h self) = CCollision ->
  eval_schema d (collision_schema (CType (extra (h self)))) = Some l ->
  let (h', r) := create_attributes self (Some d) h in
  r = Ok tt /\
  sets_attributes h h' self (Some (mkAttr "TYPE" (CType (extra (h self))) :: l)).
Proof.
  intros Hc He.
  apply create_attributes_schema; [congruence|].
  unfold attribute_schema. rewrite Hc. cbn [eval_schema]. now rewrite He.
Qed.

(** Scenario D: a Sphere collision given [{RADIUS: 2.5}]. *)
Lemma Collision_create_attributes_layout_witness :
  let h := heap1 (ok_or_blank (Collision "C1" [("CollisionType", VStr "Sphere")])) in
  cls (h 1) = CCollision /\
  eval_schema [("RADIUS", VFloat (5 # 2))] (collision_schema (CType (extra (h 1))))
    = Some [mkAttr "RADIUS" (VFloat (5 # 2))] /\
  (let (h', r) := create_attributes 1 (Some [("RADIUS", VFloat (5 # 2))]) h in
   r = Ok tt /\
   sets_attributes h h' 1 (Some [mkAttr "TYPE" (VStr "Sphere"); mkAttr "RADIUS" (VFloat (5 # 2))])).
Proof.
  intro h. split; [reflexivity|split; [reflexivity|]].
  exact (Collision_create_attributes_layout h 1 [("RADIUS", VFloat (5 # 2))]
           [mkAttr "RADIUS" (VFloat (5 # 2))] eq_refl eq_refl).
Defined.

(** C7 (missing data key): when the data lacks a key the object's attribute
    schema reads, [create_attributes] raises [KeyError] for a missing key;
    the exception is the method's result, nothing in it catches it. *)
Theorem create_attributes_KeyError (h : heap) (self : nat) d k :
  In k (required_keys (h self)) -> assoc k d = None ->
  exists h' k', create_attributes self (Some d) h = (h', Err (KeyError k'))
                /\ assoc k' d = None.
Proof. apply create_attributes_missing. Qed.

(** Scenario E: a Box collision whose data lacks WIDTH. *)
Lemma create_attributes_KeyError_witness :
  let h := heap1 (ok_or_blank (Collision "C1" [("CollisionType", VStr "Box")])) in
  let d := [("HEIGHT", VInt 1); ("DEPTH", VInt 1)] in
  In "WIDTH" (required_keys (h 1)) /\ assoc "WIDTH" d = None /\
  exists h' k', create_attributes 1 (Some d) h = (h', Err (KeyError k'))
                /\ assoc k' d = None.
Proof.
  intros h d. split; [cbn; tauto|split; [reflexivity|]].
  apply (create_attributes_KeyError h 1 d "WIDTH"); [cbn; tauto|reflexivity].
Defined.

(** C8 (optional and data-free attributes): on a [Locator], [Joint] or
    [Emitter], [create_attributes(None)] changes nothing, and with a mapping
    holding its keys it sets [Attributes] to exactly [ATTACHMENT],
    [JOINTINDEX] or [MATERIAL, DATA]; on a [Reference] it sets [Attributes]
    to the single pair [(SCENEGRAPH, self.Scenegraph)] whatever the data. *)
Theorem create_attributes_optional_and_reference (h : heap) (self : nat) :
  ((cls (h self) = CLocator \/ cls (h self) = CJoint \/ cls (h self) = CEmitter) ->
   create_attributes self None h = (h, Ok tt) /\
   forall d l, eval_schema d (attribute_schema (h self)) = Some l ->
     let (h', r) := create_attributes self (Some d) h in
     r = Ok tt /\ sets_attributes h h' self (Some l)) /\
  (cls (h self) = CReference -> forall data,
     let (h', r) := create_attributes self data h in
     r = Ok tt /\
     sets_attributes h h' self (Some [mkAttr "SCENEGRAPH" (Scenegraph (extra (h self)))])).
Proof.
  split.
  - intro Hc. split.
    + unfold create_attributes, bind, get.
      destruct Hc as [E|[E|E]]; rewrite E; reflexivity.
    + intros d l He. apply create_attributes_schema; [|exact He].
      destruct Hc as [E|[E|E]]; rewrite E; discriminate.
  - intros Hc data. unfold create_attributes, bind, get. rewrite Hc.
    unfold Reference_create_attributes, bind, get, set_attrs, modify.
    split; [reflexivity|apply sets_attributes_upd].
Qed.

(** Scenario A and a Reference: a Locator [L1] built without attachment data
    keeps [Attributes = None]; a Reference sets SCENEGRAPH even from [None]. *)
Lemma create_attributes_optional_and_reference_witness :
  let hl := heap1 (ok_or_blank (Locator "L1" [])) in
  let hr := heap1 (ok_or_blank (Reference "R1" [("Scenegraph", VStr "A/B.SCENE.MBIN")])) in
  (cls (hl 1) = CLocator /\ create_attributes 1 None hl = (hl, Ok tt) /\
   Attributes (hl 1) = None) /\
  (cls (hr 1) = CReference /\
   let (h', r) := create_attributes 1 None hr in
   r = Ok tt /\ sets_attributes hr h' 1
                  (Some [mkAttr "SCENEGRAPH" (VStr "A/B.SCENE.MBIN")])).
Proof.
  intros hl hr. split.
  - split; [reflexivity|split; [|reflexivity]].
    apply (proj1 (create_attributes_optional_and_reference hl 1)). now left.
  - split; [reflexivity|].
    exact (proj2 (create_attributes_optional_and_reference hr 1) eq_refl None).
Defined.

(** ** Parent chains and mesh registration *)

Lemma Parent_set_Children o v : Parent (set_Children o v) = Parent o.
Proof. now destruct o. Qed.
Lemma Parent_set_Parent o v : Parent (set_Parent o v) = v.
Proof. now destruct o. Qed.
Lemma Parent_set_ListOfMeshes o v : Parent (set_ListOfMeshes o v) = Parent o.
Proof. now destruct o. Qed.
Lemma LOM_set_Children o v : ListOfMeshes (set_Children o v) = ListOfMeshes o.
Proof. now destruct o. Qed.
Lemma LOM_set_Parent o v : ListOfMeshes (set_Parent o v) = ListOfMeshes o.
Proof. now destruct o. Qed.
Lemma LOM_set_ListOfMeshes o v : ListOfMeshes (set_ListOfMeshes o v) = v.
Proof. now destruct o. Qed.
Lemma IsMesh_set_Children o v : IsMesh (set_Children o v) = IsMesh o.
Proof. now destruct o. Qed.
Lemma IsMesh_set_Parent o v : IsMesh (set_Parent o v) = IsMesh o.
Proof. now destruct o. Qed.
Lemma IsMesh_set_ListOfMeshes o v : IsMesh (set_ListOfMeshes o v) = IsMesh o.
Proof. now destruct o. Qed.
Lemma Children_set_Children o v : Children (set_Children o v) = v.
Proof. now destruct o. Qed.
Lemma Children_set_Parent o v : Children (set_Parent o v) = Children o.
Proof. now destruct o. Qed.

Lemma add_child_linked fuel h p c :
  add_child fuel p c h =
  (if IsMesh (linked h p c c) then populate_meshlist fuel p c (linked h p c)
   else (linked h p c, Ok tt)).
Proof.
  unfold add_child, give_parent, bind, modify, get, ret. cbn beta iota.
  fold (linked h p c). destruct (IsMesh (linked h p c c)); reflexivity.
Qed.

Lemma linked_Parent h p c y :
  Parent (linked h p c y) = if Nat.eqb y c then Some p else Parent (h y).
Proof.
  unfold linked, upd. destruct (Nat.eqb y c).
  - apply Parent_set_Parent.
  - destruct (Nat.eqb_spec y p); [subst; apply Parent_set_Children|reflexivity].
Qed.

Lemma linked_IsMesh h p c y : IsMesh (linked h p c y) = IsMesh (h y).
Proof.
  unfold linked, upd.
  destruct (Nat.eqb_spec y c), (Nat.eqb_spec c p), (Nat.eqb_spec y p); subst;
    rewrite ?IsMesh_set_Parent, ?IsMesh_set_Children; reflexivity.
Qed.

Lemma linked_LOM h p c y : ListOfMeshes (linked h p c y) = ListOfMeshes (h y).
Proof.
  unfold linked, upd.
  destruct (Nat.eqb_spec y c), (Nat.eqb_spec c p), (Nat.eqb_spec y p); subst;
    rewrite ?LOM_set_Parent, ?LOM_set_Children; reflexivity.
Qed.

Lemma linked_Children_parent h p c :
  c <> p -> Children (linked h p c p) = Children (h p) ++ [c].
Proof.
  intro H. unfold linked. rewrite upd_neq by congruence. rewrite upd_eq.
  apply Children_set_Children.
Qed.

Lemma linked_Parent_child h p c : Parent (linked h p c c) = Some p.
Proof. rewrite linked_Parent, Nat.eqb_refl. reflexivity. Qed.

Lemma desc_has_parent h r x : desc h r x -> Parent (h x) <> None.
Proof. intros []; congruence. Qed.

Lemma desc_trans h a b x : desc h a b -> desc h b x -> desc h a x.
Proof.
  intros Hab Hbx. induction Hbx as [x Hx|x q Hx _ IH].
  - exact (desc_step h a x b Hx Hab).
  - exact (desc_step h a x q Hx IH).
Qed.

Lemma desc_ext h h' r x :
  (forall y, Parent (h' y) = Parent (h y)) -> desc h r x -> desc h' r x.
Proof.
  intros He H. induction H as [x Hx|x q Hx _ IH].
  - apply desc_parent. now rewrite He.
  - apply (desc_step h' r x q); [now rewrite He|exact IH].
Qed.

(** Linking the parentless [c] under [p] adds exactly [c] and what lies
    below [c] under [p] and everything above [p]. *)
Lemma desc_linked h p c r m :
  Parent (h c) = None ->
  desc (linked h p c) r m <->
  desc h r m \/ ((m = c \/ desc h c m) /\ (r = p \/ desc h r p)).
Proof.
  intro Hc. split.
  - intro H. induction H as [x Hx|x q Hx _ IH]; rewrite linked_Parent in Hx.
    + destruct (Nat.eqb x c) eqn:E.
      * apply Nat.eqb_eq in E. injection Hx as <-. right. auto.
      * left. now apply desc_parent.
    + destruct (Nat.eqb x c) eqn:E.
      * apply Nat.eqb_eq in E. subst x. injection Hx as <-. right.
        destruct IH as [IH|[_ IH]]; auto.
      * apply Nat.eqb_neq in E. destruct IH as [IH|[[<-|IH] IH']].
        -- left. exact (desc_step h r x q Hx IH).
        -- right. split; [right; now apply desc_parent|exact IH'].
        -- right. split; [right; exact (desc_step h c x q Hx IH)|exact IH'].
  - assert (Hold : forall r' m', desc h r' m' -> desc (linked h p c) r' m').
    { intros r' m' H. induction H as [x Hx|x q Hx _ IH].
      - apply desc_parent. rewrite linked_Parent.
        destruct (Nat.eqb x c) eqn:E; [apply Nat.eqb_eq in E; congruence|exact Hx].
      - apply (desc_step _ r' x q); [|exact IH]. rewrite linked_Parent.
        destruct (Nat.eqb x c) eqn:E; [apply Nat.eqb_eq in E; congruence|exact Hx]. }
    assert (Hpc : desc (linked h p c) p c) by (apply desc_parent; apply linked_Parent_child).
    intros [H|[Hm Hr]]; [now apply Hold|].
    assert (Hpm : desc (linked h p c) p m)
      by (destruct Hm as [<-|Hm]; [exact Hpc|exact (desc_trans _ _ _ _ Hpc (Hold _ _ Hm))]).
    destruct Hr as [<-|Hr]; [exact Hpm|exact (desc_trans _ _ _ _ (Hold _ _ Hr) Hpm)].
Qed.

Lemma root_unique h r1 r2 x :
  Parent (h r1) = None -> Parent (h r2) = None ->
  (r1 = x \/ desc h r1 x) -> (r2 = x \/ desc h r2 x) -> r1 = r2.
Proof.
  intros H1 H2 [<-|D1] [E|D2].
  - now symmetry.
  - exfalso. exact (desc_has_parent _ _ _ D2 H1).
  - subst r2. exfalso. exact (desc_has_parent _ _ _ D1 H2).
  - revert r2 H2 D2. induction D1 as [x Hx|x q Hx D1 IH]; intros r2 H2 D2;
      inversion D2 as [x' Hx'|x' q' Hx' D2']; subst.
    + congruence.
    + rewrite Hx in Hx'. injection Hx' as <-. exfalso. exact (desc_has_parent _ _ _ D2' H1).
    + rewrite Hx in Hx'. injection Hx' as <-. exfalso. exact (desc_has_parent _ _ _ D1 H2).
    + rewrite Hx in Hx'. injection Hx' as <-. exact (IH r2 H2 D2').
Qed.

(** A successful [populate_meshlist] appended [obj] to the registry of the
    parentless object at the end of [self]'s chain. *)
Lemma populate_meshlist_Ok fuel self obj h h' :
  populate_meshlist fuel self obj h = (h', Ok tt) ->
  exists r l, (r = self \/ desc h r self) /\ Parent (h r) = None /\
    ListOfMeshes (h r) = Some l /\
    h' = upd h r (set_ListOfMeshes (h r) (Some (l ++ [obj]))).
Proof.
  revert self. induction fuel as [|f IH]; intros self H; [discriminate|].
  cbn [populate_meshlist] in H. unfold bind, get in H.
  destruct (Parent (h self)) as [p|] eqn:Ep.
  - destruct (IH p H) as [r [l [Hr [Hn [Hl Hh]]]]].
    exists r, l. repeat split; auto. right.
    destruct Hr as [<-|Hr]; [now apply desc_parent|exact (desc_step h r self p Ep Hr)].
  - destruct (ListOfMeshes (h self)) as [l|] eqn:El; [|discriminate].
    unfold modify in H. injection H as <-. exists self, l. auto.
Qed.

(** [populate_meshlist] raises [AttributeError] when the chain ends, within
    the fuel, at an object without [ListOfMeshes], and changes nothing. *)
Lemma populate_meshlist_AttributeError fuel self obj h r n :
  root_path h self r n -> n < fuel -> ListOfMeshes (h r) = None ->
  populate_meshlist fuel self obj h = (h, Err (AttributeError "ListOfMeshes")).
Proof.
  intros Hp. revert fuel. induction Hp as [x Hx|x p r n Hx _ IH]; intros fuel Hf Hl;
    (destruct fuel as [|f]; [lia|]); cbn [populate_meshlist]; unfold bind, get.
  - rewrite Hx, Hl. reflexivity.
  - rewrite Hx. apply IH; [lia|exact Hl].
Qed.

Lemma root_path_ext h h' x r n :
  root_path h x r n ->
  (forall y, (y = x \/ desc h y x) -> Parent (h' y) = Parent (h y)) ->
  root_path h' x r n.
Proof.
  intros Hp. induction Hp as [x Hx|x p r n Hx _ IH]; intros He.
  - apply rp_here. rewrite He; auto.
  - apply (rp_up h' x p); [rewrite He; auto|].
    apply IH. intros y [<-|Hy]; apply He; right;
      [now apply desc_parent|exact (desc_step h y x p Hx Hy)].
Qed.

Lemma root_path_end h x r n : root_path h x r n -> r = x \/ desc h r x.
Proof.
  induction 1 as [x Hx|x p r n Hx _ [<-|IH]]; auto; right;
    [now apply desc_parent|exact (desc_step h r x p Hx IH)].
Qed.

Lemma root_path_root h x r n : root_path h x r n -> Parent (h r) = None.
Proof. induction 1; auto. Qed.

(** C10 (attaching a mesh under a root that is not a Model): when the chain
    from the parent ends at a parentless object that is not a [Model], and
    the child is not the parent or above it, [add_child] with a mesh-bearing
    child raises [AttributeError] on [ListOfMeshes], after the child has been
    appended to the parent's [Children] and its [Parent] set. *)
Theorem add_child_non_model_root_AttributeError fuel h p c r n :
  registry_only_on_models h -> root_path h p r n -> n < fuel ->
  cls (h r) <> CModel -> IsMesh (h c) = true -> c <> p -> ~ desc h c p ->
  exists h', add_child fuel p c h = (h', Err (AttributeError "ListOfMeshes")) /\
    Children (h' p) = Children (h p) ++ [c] /\ Parent (h' c) = Some p.
Proof.
  intros Hwf Hp Hf Hr Hm Hcp Hd.
  assert (Hl : ListOfMeshes (h r) = None)
    by (destruct (ListOfMeshes (h r)) eqn:E; [exfalso; apply Hr, Hwf; congruence|reflexivity]).
  exists (linked h p c). rewrite add_child_linked, linked_IsMesh, Hm.
  split; [|split; [now apply linked_Children_parent|apply linked_Parent_child]].
  apply (populate_meshlist_AttributeError fuel p c _ r n); [|exact Hf|now rewrite linked_LOM].
  apply (root_path_ext h); [exact Hp|].
  intros y Hy. rewrite linked_Parent.
  destruct (Nat.eqb_spec y c) as [->|]; [|reflexivity].
  exfalso. destruct Hy; auto.
Qed.

(** A mesh attached to a parentless Locator. *)
Lemma add_child_non_model_root_AttributeError_witness :
  let h := heap2 (ok_or_blank (Locator "L1" [])) (ok_or_blank (Mesh "M1" [])) in
  registry_only_on_models h /\ root_path h 1 1 0 /\ 0 < 10 /\ cls (h 1) <> CModel /\
  IsMesh (h 2) = true /\ 2 <> 1 /\ ~ desc h 2 1 /\
  exists h', add_child 10 1 2 h = (h', Err (AttributeError "ListOfMeshes")) /\
    Children (h' 1) = Children (h 1) ++ [2] /\ Parent (h' 2) = Some 1.
Proof.
  intro h.
  assert (Hwf : registry_only_on_models h).
  { intros x Hx. unfold h, heap2 in *.
    destruct (Nat.eqb x 1), (Nat.eqb x 2); cbn in *; congruence. }
  assert (Hp : root_path h 1 1 0) by (apply rp_here; reflexivity).
  assert (Hd : ~ desc h 2 1) by (intro D; apply (desc_has_parent _ _ _ D); reflexivity).
  split; [exact Hwf|split; [exact Hp|split; [lia|split; [discriminate|
    split; [reflexivity|split; [lia|split; [exact Hd|]]]]]]].
  apply (add_child_non_model_root_AttributeError 10 h 1 2 1 0 Hwf Hp);
    [lia|discriminate|reflexivity|lia|exact Hd].
Defined.

(** *** The registry invariant *)

Lemma subseq_app_r {A} (l1 l2 : list A) x : subseq l1 l2 -> subseq l1 (l2 ++ [x]).
Proof.
  induction 1; cbn.
  - apply subseq_skip, subseq_nil.
  - now apply subseq_skip.
  - now apply subseq_take.
Qed.

Lemma subseq_app_both {A} (l1 l2 : list A) x : subseq l1 l2 -> subseq (l1 ++ [x]) (l2 ++ [x]).
Proof.
  induction 1; cbn.
  - apply subseq_take, subseq_nil.
  - now apply subseq_skip.
  - now apply subseq_take.
Qed.

Lemma subseq_In {A} (l1 l2 : list A) x : subseq l1 l2 -> In x l1 -> In x l2.
Proof. induction 1; cbn; intuition. Qed.

Lemma assembly_inv_fresh h : fresh_heap h -> assembly_inv h [].
Proof.
  intro Hf. split; [|split].
  - intro x. destruct (Hf x) as [Hx _]. cbn. tauto.
  - intros r l _ Hl. destruct (Hf r) as [_ [E|E]]; rewrite E in Hl; [discriminate|].
    injection Hl as <-. split; [constructor|split; [|constructor]].
    intro m. split; [intros []|intros [_ D]].
    exfalso. apply (desc_has_parent _ _ _ D). apply Hf.
  - intros r _ _ m D. exfalso. apply (desc_has_parent _ _ _ D). apply Hf.
Qed.

Lemma assembly_inv_step fuel h done p c h' :
  assembly_inv h done -> ~ In c done ->
  (forall m, desc h c m -> IsMesh (h m) = false) ->
  add_child fuel p c h = (h', Ok tt) ->
  assembly_inv h' (done ++ [c]) /\ (forall y, IsMesh (h' y) = IsMesh (h y)).
Proof.
  intros [HP [HR HN]] Hc Hbelow H.
  assert (Hc0 : Parent (h c) = None)
    by (destruct (Parent (h c)) eqn:E; [exfalso; apply Hc, HP; congruence|reflexivity]).
  rewrite add_child_linked, linked_IsMesh in H.
  (* [rs] is the registry [c] was appended to, if [c] is mesh-bearing *)
  assert (Hsplit : exists rs : option (nat * list nat),
    (forall y, Parent (h' y) = Parent (linked h p c y)) /\
    (forall y, IsMesh (h' y) = IsMesh (h y)) /\
    match rs with
    | None => IsMesh (h c) = false /\ forall y, ListOfMeshes (h' y) = ListOfMeshes (h y)
    | Some (rt, lt) =>
        IsMesh (h c) = true /\ Parent (h rt) = None /\ (rt = p \/ desc h rt p) /\
        ListOfMeshes (h rt) = Some lt /\ ListOfMeshes (h' rt) = Some (lt ++ [c]) /\
        forall y, y <> rt -> ListOfMeshes (h' y) = ListOfMeshes (h y)
    end).
  { destruct (IsMesh (h c)) eqn:Em.
    - apply populate_meshlist_Ok in H as [rt [lt [Hrt [Hpr [Hlt ->]]]]].
      assert (Hrc : rt <> c)
        by (intros ->; rewrite linked_Parent_child in Hpr; discriminate).
      exists (Some (rt, lt)). split; [|split].
      + intro y. unfold upd. destruct (Nat.eqb_spec y rt);
          [subst; apply Parent_set_ListOfMeshes|reflexivity].
      + intro y. unfold upd. destruct (Nat.eqb_spec y rt);
          [subst; rewrite IsMesh_set_ListOfMeshes|]; apply linked_IsMesh.
      + rewrite linked_Parent, (proj2 (Nat.eqb_neq _ _) Hrc) in Hpr.
        rewrite linked_LOM in Hlt.
        split; [reflexivity|split; [exact Hpr|split; [|split; [exact Hlt|split]]]].
        * destruct Hrt as [<-|Hrt]; auto.
          apply (desc_linked h p c rt p Hc0) in Hrt. destruct Hrt as [Hrt|[_ Hrt]]; auto.
        * rewrite upd_eq. apply LOM_set_ListOfMeshes.
        * intros y Hy. rewrite upd_neq by exact Hy. apply linked_LOM.
    - injection H as <-. exists None.
      split; [reflexivity|split; [apply linked_IsMesh|split; [reflexivity|apply linked_LOM]]]. }
  destruct Hsplit as [rs [HPar [HMesh Hrs]]].
  assert (Hdesc : forall r m, desc h' r m <->
                   desc h r m \/ ((m = c \/ desc h c m) /\ (r = p \/ desc h r p))).
  { intros r m. rewrite <- (desc_linked h p c r m Hc0).
    split; apply desc_ext; intro y; now rewrite HPar. }
  assert (HPar' : forall y, Parent (h' y) = if Nat.eqb y c then Some p else Parent (h y))
    by (intro y; rewrite HPar; apply linked_Parent).
  assert (Hroot : forall r, Parent (h' r) = None -> r <> c /\ Parent (h r) = None).
  { intros r Hr. rewrite HPar' in Hr. destruct (Nat.eqb_spec r c); [discriminate|auto]. }
  (* a parentless object not above [p] gains nothing below it *)
  assert (Hsame : forall r, ~ (r = p \/ desc h r p) -> forall m, desc h' r m <-> desc h r m).
  { intros r Hn m. rewrite Hdesc. split; [intros [D|[_ D]]; [exact D|contradiction]|auto]. }
  split; [|exact HMesh].
  split; [|split].
  - intro x. rewrite HPar', in_app_iff. cbn. destruct (Nat.eqb_spec x c) as [->|Hx].
    + split; [auto|discriminate].
    + rewrite HP. split; [auto|intros [H1|[H1|[]]]; [exact H1|congruence]].
  - intros r l Hr Hl. destruct (Hroot r Hr) as [Hrc Hr0].
    destruct rs as [[rt lt]|].
    + destruct Hrs as [Hcm [Hrt0 [Hrtp [Hlt [Hlt' Hoth]]]]].
      destruct (Nat.eqb_spec r rt) as [->|Hne].
      * rewrite Hlt' in Hl. injection Hl as <-.
        destruct (HR rt lt Hrt0 Hlt) as [Hnd [Hin Hsub]].
        split; [|split].
        -- apply NoDup_app; [exact Hnd|repeat constructor; intros []|].
           intros x Hx [<-|[]]. apply Hc. exact (subseq_In _ _ _ Hsub Hx).
        -- intro m. rewrite in_app_iff, Hin, HMesh, Hdesc. cbn. split.
           ++ intros [[Hmm D]|[<-|[]]]; split; auto.
           ++ intros [Hmm [D|[[<-|D] _]]]; auto. rewrite (Hbelow m D) in Hmm. discriminate.
        -- now apply subseq_app_both.
      * rewrite (Hoth r Hne) in Hl.
        destruct (HR r l Hr0 Hl) as [Hnd [Hin Hsub]].
        assert (Hn : ~ (r = p \/ desc h r p))
          by (intro Hrp; apply Hne; exact (root_unique h r rt p Hr0 Hrt0 Hrp Hrtp)).
        split; [exact Hnd|split; [|now apply subseq_app_r]].
        intro m. rewrite Hin, HMesh, (Hsame r Hn m). reflexivity.
    + destruct Hrs as [Hm Hl0]. rewrite Hl0 in Hl.
      destruct (HR r l Hr0 Hl) as [Hnd [Hin Hsub]].
      split; [exact Hnd|split; [|now apply subseq_app_r]].
      intro m. rewrite Hin, HMesh, Hdesc. split; [tauto|].
      intros [Hmm [D|[[<-|D] _]]]; auto; [congruence|rewrite (Hbelow m D) in Hmm; discriminate].
  - intros r Hr Hl m D. destruct (Hroot r Hr) as [Hrc Hr0]. rewrite HMesh.
    destruct rs as [[rt lt]|].
    + destruct Hrs as [Hcm [Hrt0 [Hrtp [Hlt [Hlt' Hoth]]]]].
      assert (Hne : r <> rt) by (intros ->; congruence).
      rewrite (Hoth r Hne) in Hl.
      assert (Hn : ~ (r = p \/ desc h r p))
        by (intro Hrp; apply Hne; exact (root_unique h r rt p Hr0 Hrt0 Hrp Hrtp)).
      apply (Hsame r Hn) in D. exact (HN r Hr0 Hl m D).
    + destruct Hrs as [Hm Hl0]. rewrite Hl0 in Hl.
      apply Hdesc in D. destruct D as [D|[[<-|D] _]];
        [exact (HN r Hr0 Hl m D)|exact Hm|exact (Hbelow m D)].
Qed.

Lemma add_children_inv fuel calls h done h' :
  assembly_inv h done -> NoDup (done ++ map snd calls) ->
  attaches_mesh_free_subtrees fuel h calls ->
  add_children fuel calls h = (h', Ok tt) ->
  assembly_inv h' (done ++ map snd calls).
Proof.
  revert h done. induction calls as [|[p c] rest IH]; intros h done Hi Hnd Ha H.
  - cbn in H. injection H as <-. now rewrite app_nil_r.
  - cbn [add_children] in H. unfold bind in H. cbn [map snd] in *.
    destruct (add_child fuel p c h) as [h1 [[]|e]] eqn:E; [|discriminate].
    destruct Ha as [Hb Ha]. rewrite E in Ha. cbn [fst] in Ha.
    assert (Hc : ~ In c done)
      by (intro Hin; apply (NoDup_remove_2 _ _ _ Hnd); apply in_app_iff; now left).
    destruct (assembly_inv_step fuel h done p c h1 Hi Hc Hb E) as [Hi1 _].
    replace (done ++ c :: map snd rest) with ((done ++ [c]) ++ map snd rest)
      by now rewrite <- app_assoc.
    apply (IH h1); [exact Hi1| |exact Ha|exact H].
    now rewrite <- app_assoc.
Qed.

Lemma desc_some_parent h r m : desc h r m -> exists x, Parent (h x) = Some r.
Proof. induction 1; eauto. Qed.

(** C1 (mesh registry), as it holds: starting from freshly constructed
    objects, after a sequence of [add_child] calls that all succeed, attach
    each object at most once, and never attach a child that already has a
    mesh-bearing object below it, every parentless object's [ListOfMeshes]
    holds exactly the mesh-bearing objects below it at any depth, each once,
    in the order of the calls that attached them. *)
Theorem registry_exact_mesh_free_attach fuel h0 calls h :
  fresh_heap h0 -> NoDup (map snd calls) ->
  attaches_mesh_free_subtrees fuel h0 calls ->
  add_children fuel calls h0 = (h, Ok tt) ->
  registries_exact h (map snd calls).
Proof.
  intros Hf Hnd Ha H.
  apply (add_children_inv fuel calls h0 [] h (assembly_inv_fresh h0 Hf) Hnd Ha H).
Qed.

(** A Model [Root] with a Locator [L1] and, two levels down, a Mesh [M1]
    attached under [L1]. *)
Lemma registry_exact_mesh_free_attach_witness :
  let h0 := heap3 (ok_or_blank (Model "Root" [])) (ok_or_blank (Locator "L1" []))
                  (ok_or_blank (Mesh "M1" [])) in
  let calls := [(1, 2); (2, 3)] in
  fresh_heap h0 /\ NoDup (map snd calls) /\ attaches_mesh_free_subtrees 10 h0 calls /\
  add_children 10 calls h0 = (fst (add_children 10 calls h0), Ok tt) /\
  registries_exact (fst (add_children 10 calls h0)) (map snd calls).
Proof.
  intros h0 calls.
  assert (Hf : fresh_heap h0).
  { intro x. unfold h0, heap3.
    destruct (Nat.eqb x 1), (Nat.eqb x 2), (Nat.eqb x 3); cbn; auto. }
  assert (Hnd : NoDup (map snd calls)) by (repeat constructor; cbn; intuition lia).
  assert (Ha : attaches_mesh_free_subtrees 10 h0 calls).
  { cbn [attaches_mesh_free_subtrees calls]. split; [|split; [|exact I]];
      intros m D; exfalso; destruct (desc_some_parent _ _ _ D) as [x Hx];
      cbn in Hx; unfold upd, h0, heap3 in Hx; cbn in Hx;
      repeat match type of Hx with
             | context [Nat.eqb x ?k] => destruct (Nat.eqb x k); cbn in Hx
             end; congruence. }
  assert (Hr : add_children 10 calls h0 = (fst (add_children 10 calls h0), Ok tt))
    by reflexivity.
  split; [exact Hf|split; [exact Hnd|split; [exact Ha|split; [exact Hr|]]]].
  exact (registry_exact_mesh_free_attach 10 h0 calls _ Hf Hnd Ha Hr).
Defined.

(** C1 as stated fails: a Model [R2] that already registered its Mesh [M]
    is then attached under the Model [R1]; [R1]'s registry stays empty
    although [M] lies below it. *)
Lemma registry_exact_nested_model_counterexample :
  ~ (forall fuel h0 calls h,
       fresh_heap h0 -> NoDup (map snd calls) ->
       add_children fuel calls h0 = (h, Ok tt) ->
       registries_exact h (map snd calls)).
Proof.
  intro Hall.
  set (h0 := heap3 (ok_or_blank (Model "R1" [])) (ok_or_blank (Model "R2" []))
                   (ok_or_blank (Mesh "M" []))).
  set (calls := [(2, 3); (1, 2)]).
  assert (Hf : fresh_heap h0).
  { intro x. unfold h0, heap3.
    destruct (Nat.eqb x 1), (Nat.eqb x 2), (Nat.eqb x 3); cbn; auto. }
  assert (Hnd : NoDup (map snd calls)) by (repeat constructor; cbn; intuition lia).
  set (h := fst (add_children 10 calls h0)).
  assert (Hr : add_children 10 calls h0 = (h, Ok tt)) by reflexivity.
  destruct (Hall 10 h0 calls h Hf Hnd Hr 1 [] eq_refl eq_refl) as [_ [Hin _]].
  apply (proj2 (Hin 3)). split; [reflexivity|].
  apply (desc_step h 1 3 2); [reflexivity|]. apply desc_parent. reflexivity.
Qed.

(** ** Building the output records *)

Lemma strip_fields o :
  Name (strip o) = Name o /\ Type_ (strip o) = Type_ o /\ Transform (strip o) = Transform o /\
  Attributes (strip o) = Attributes o /\ Children (strip o) = Children o.
Proof. destruct o; repeat split. Qed.

Lemma strip_set_Child_Nodes o v : strip (set_Child_Nodes o v) = strip o.
Proof. now destruct o. Qed.
Lemma strip_set_NodeData o v : strip (set_NodeData o v) = strip o.
Proof. now destruct o. Qed.
Lemma NodeData_set_Child_Nodes o v : NodeData (set_Child_Nodes o v) = NodeData o.
Proof. now destruct o. Qed.
Lemma NodeData_set_NodeData o v : NodeData (set_NodeData o v) = v.
Proof. now destruct o. Qed.
Lemma Child_Nodes_set_Child_Nodes o v : Child_Nodes (set_Child_Nodes o v) = v.
Proof. now destruct o. Qed.
Lemma Child_Nodes_set_NodeData o v : Child_Nodes (set_NodeData o v) = Child_Nodes o.
Proof. now destruct o. Qed.
Lemma set_Child_Nodes_twice o a b :
  set_Child_Nodes (set_Child_Nodes o a) b = set_Child_Nodes o b.
Proof. now destruct o. Qed.

(** The fields [construct_data] reads agree on heaps with the same inputs. *)
Lemma same_inputs_fields h h' m : same_inputs h h' ->
  Name (h' m) = Name (h m) /\ Type_ (h' m) = Type_ (h m) /\
  Transform (h' m) = Transform (h m) /\ Attributes (h' m) = Attributes (h m) /\
  Children (h' m) = Children (h m).
Proof.
  intro H. specialize (H m).
  destruct (strip_fields (h' m)) as [A1 [A2 [A3 [A4 A5]]]].
  destruct (strip_fields (h m)) as [B1 [B2 [B3 [B4 B5]]]].
  rewrite H in A1, A2, A3, A4, A5. repeat split; congruence.
Qed.

Lemma same_inputs_refl h : same_inputs h h.
Proof. intro. reflexivity. Qed.

Lemma same_inputs_trans h1 h2 h3 :
  same_inputs h1 h2 -> same_inputs h2 h3 -> same_inputs h1 h3.
Proof. intros A B m. now rewrite B, A. Qed.

Lemma same_inputs_sym h1 h2 : same_inputs h1 h2 -> same_inputs h2 h1.
Proof. intros A m. now rewrite A. Qed.

Lemma same_inputs_upd h x o : strip o = strip (h x) -> same_inputs h (upd h x o).
Proof.
  intros E m. unfold upd. destruct (Nat.eqb_spec m x); [subst; exact E|reflexivity].
Qed.

Lemma map_opt_ext {A B} (g g' : A -> option B) l :
  (forall x, In x l -> g' x = g x) -> map_opt g' l = map_opt g l.
Proof.
  induction l as [|x xs IH]; intro H; cbn; [reflexivity|].
  rewrite H by (left; reflexivity). rewrite IH by (intros; apply H; right; assumption).
  reflexivity.
Qed.

Lemma map_opt_In {A B} (g : A -> option B) l ys x :
  map_opt g l = Some ys -> In x l -> g x <> None.
Proof.
  revert ys. induction l as [|y l IH]; intros ys H Hx; [destruct Hx|].
  cbn in H. destruct (g y) eqn:E; [|discriminate].
  destruct (map_opt g l) eqn:E'; [|discriminate].
  destruct Hx as [<-|Hx]; [congruence|exact (IH _ eq_refl Hx)].
Qed.

Lemma map_opt_mono {A B} (g g' : A -> option B) l ys :
  (forall x y, In x l -> g x = Some y -> g' x = Some y) ->
  map_opt g l = Some ys -> map_opt g' l = Some ys.
Proof.
  revert ys. induction l as [|x xs IH]; intros ys Hg H; cbn in *; [exact H|].
  destruct (g x) eqn:E; [|discriminate].
  rewrite (Hg x b (or_introl eq_refl) E).
  destruct (map_opt g xs) eqn:E'; [|discriminate].
  rewrite (IH l (fun x' y' Hx => Hg x' y' (or_intror Hx)) eq_refl). exact H.
Qed.

Lemma record_of_S_eq f h n : record_of (S f) h n =
  match Children (h n) with
  | [] => Some (mkSND (Name (h n)) (Type_ (h n)) (Transform (h n)) (Attributes (h n)) None)
  | cs => option_map (fun rs => mkSND (Name (h n)) (Type_ (h n)) (Transform (h n))
                                      (Attributes (h n)) (Some (map Some rs)))
                     (map_opt (record_of f h) cs)
  end.
Proof. reflexivity. Qed.

Lemma record_of_same f h h' n : same_inputs h h' -> record_of f h' n = record_of f h n.
Proof.
  intro Hs. revert n. induction f as [|f IH]; intro n; [reflexivity|].
  rewrite !record_of_S_eq. destruct (same_inputs_fields h h' n Hs) as [A1 [A2 [A3 [A4 A5]]]].
  rewrite A1, A2, A3, A4, A5. destruct (Children (h n)) as [|c cs]; [reflexivity|].
  rewrite (map_opt_ext (record_of f h) (record_of f h')) by (intros; apply IH).
  reflexivity.
Qed.

Lemma reach_same h h' x y : same_inputs h h' -> reach h x y -> reach h' x y.
Proof.
  intros Hs H. induction H as [x|x y z Hy _ IH]; [apply reach_refl|].
  apply (reach_child h' x y z); [|exact IH].
  destruct (same_inputs_fields h h' x Hs) as [_ [_ [_ [_ ->]]]]. exact Hy.
Qed.

Lemma built_same h h' m :
  same_inputs h h' -> NodeData (h' m) = NodeData (h m) -> built h m -> built h' m.
Proof.
  intros Hs Hd [f [r [Hr Hn]]]. exists f, r. rewrite (record_of_same f h h' m Hs).
  split; congruence.
Qed.

Lemma record_of_S f h n r : record_of f h n = Some r -> record_of (S f) h n = Some r.
Proof.
  revert n r. induction f as [|f IH]; intros n r H; [discriminate|].
  rewrite record_of_S_eq in *. destruct (Children (h n)) as [|c cs]; [exact H|].
  destruct (map_opt (record_of f h) (c :: cs)) eqn:E; [|discriminate].
  rewrite (map_opt_mono (record_of f h) (record_of (S f) h) _ _
             (fun x y _ Hxy => IH x y Hxy) E). exact H.
Qed.

Lemma record_of_le f f' h n r : f <= f' -> record_of f h n = Some r -> record_of f' h n = Some r.
Proof. induction 1; auto using record_of_S. Qed.

Lemma record_of_det f1 f2 h n r1 r2 :
  record_of f1 h n = Some r1 -> record_of f2 h n = Some r2 -> r1 = r2.
Proof.
  intros H1 H2. destruct (Nat.le_ge_cases f1 f2) as [L|L].
  - rewrite (record_of_le _ _ _ _ _ L H1) in H2. congruence.
  - rewrite (record_of_le _ _ _ _ _ L H2) in H1. congruence.
Qed.

Lemma record_of_reach f h x y :
  record_of f h x <> None -> reach h x y -> exists f', f' <= f /\ record_of f' h y <> None.
Proof.
  intros Hx H. revert f Hx. induction H as [x|x y z Hy _ IH]; intros f Hx; [eauto|].
  destruct f as [|f]; [contradiction|]. rewrite record_of_S_eq in Hx.
  destruct (Children (h x)) as [|c cs] eqn:Ec; [destruct Hy|].
  destruct (map_opt (record_of f h) (c :: cs)) eqn:E; [|contradiction].
  destruct (IH f (map_opt_In _ _ _ _ E Hy)) as [f' [Hf' Hr]]. exists f'. split; [lia|exact Hr].
Qed.

(** The records exist only on trees without cycles through the node. *)
Lemma record_of_no_cycle f h c n :
  record_of f h c <> None -> reach h c n -> In c (Children (h n)) -> False.
Proof.
  revert c. induction f as [f IH] using lt_wf_ind. intros c Hc Hr Hin.
  destruct (record_of_reach f h c n Hc Hr) as [f1 [Hf1 Hn]].
  destruct f1 as [|f2]; [contradiction|]. rewrite record_of_S_eq in Hn.
  destruct (Children (h n)) as [|d ds] eqn:Ec; [destruct Hin|].
  destruct (map_opt (record_of f2 h) (d :: ds)) eqn:E; [|contradiction].
  apply (IH f2 ltac:(lia) c (map_opt_In _ _ _ _ E Hin) Hr).
  first [exact Hin | rewrite Ec; exact Hin].
Qed.

(** ** Building the output records: the call *)

Lemma nd_ok_refl h : nd_ok h h.
Proof. intro m. now left. Qed.

Lemma nd_ok_built h h' m : same_inputs h h' -> nd_ok h h' -> built h m -> built h' m.
Proof.
  intros Hs Hn Hb. destruct (Hn m) as [E|B]; [exact (built_same h h' m Hs E Hb)|exact B].
Qed.

Lemma nd_ok_trans h h1 h2 :
  same_inputs h1 h2 -> nd_ok h h1 -> nd_ok h1 h2 -> nd_ok h h2.
Proof.
  intros Hs A B m. destruct (B m) as [E|Bm]; [|now right].
  destruct (A m) as [E'|Bm]; [left; congruence|].
  right. exact (built_same h1 h2 m Hs E Bm).
Qed.

Lemma nd_ok_upd h x o : NodeData o = NodeData (h x) -> nd_ok h (upd h x o).
Proof.
  intros E m. left. unfold upd. destruct (Nat.eqb_spec m x); [subst; exact E|reflexivity].
Qed.

Lemma append_child_node_eq self d h :
  append_child_node self d h =
  match Child_Nodes (h self) with
  | Some l0 => (upd h self (set_Child_Nodes (h self) (Some (l0 ++ [d]))), Ok tt)
  | None => (h, Err (AttributeError "append"))
  end.
Proof. unfold append_child_node, bind, get. now destruct (Child_Nodes (h self)). Qed.

Lemma construct_children_cons cd self c l h :
  construct_children cd self (c :: l) h =
  match cd c h with
  | (h1, Ok _) =>
      match append_child_node self (NodeData (h1 c)) h1 with
      | (h2, Ok _) => construct_children cd self l h2
      | (h2, Err e) => (h2, Err e)
      end
  | (h1, Err e) => (h1, Err e)
  end.
Proof.
  cbn [construct_children]. unfold bind at 1.
  destruct (cd c h) as [h1 [v1|e1]]; [|reflexivity].
  unfold get_data, bind, get, ret.
  destruct (append_child_node self (NodeData (h1 c)) h1) as [h2 [[]|e2]]; reflexivity.
Qed.

Lemma construct_children_spec f self l acc h :
  (forall n h, construct_data_post f n h) ->
  let (h', res) := construct_children (construct_data f) self l h in
  same_inputs h h' /\
  (forall m, h' m = h m \/ m = self \/ exists c, In c l /\ reach h c m) /\
  nd_ok h h' /\
  match res with
  | Ok _ => (exists rs, map_opt (record_of f h) l = Some rs) /\
            (forall c m, In c l -> reach h c m -> built h' m)
  | Err _ => True
  end /\
  ((forall c, In c l -> ~ reach h c self) -> Child_Nodes (h self) = Some acc ->
   match res with
   | Ok _ => forall rs, map_opt (record_of f h) l = Some rs ->
             h' self = set_Child_Nodes (h self) (Some (acc ++ map Some rs))
   | Err _ => map_opt (record_of f h) l = None
   end).
Proof.
  intro IH. revert acc h. induction l as [|c l IHl]; intros acc h.
  - cbn. split; [apply same_inputs_refl|]. split; [intro m; now left|].
    split; [apply nd_ok_refl|]. split.
    + split; [eauto|]. intros c m [].
    + intros _ Ha rs E. injection E as <-. rewrite app_nil_r.
      destruct (h self); cbn in *; subst; reflexivity.
  - rewrite construct_children_cons.
    pose proof (IH c h) as Hc. unfold construct_data_post in Hc.
    destruct (construct_data f c h) as [h1 [v1|e1]] eqn:E1.
    + destruct Hc as [S1 [F1 [N1 [-> [[r [R1 D1]] B1]]]]].
      rewrite append_child_node_eq, D1.
      destruct (Child_Nodes (h1 self)) as [l0|] eqn:C1.
      * 
        set (h2 := upd h1 self (set_Child_Nodes (h1 self) (Some (l0 ++ [Some r])))).
        assert (S2 : same_inputs h1 h2).
        { apply same_inputs_upd. apply strip_set_Child_Nodes. }
        assert (N2 : nd_ok h1 h2).
        { apply nd_ok_upd. apply NodeData_set_Child_Nodes. }
        assert (S12 : same_inputs h h2) by exact (same_inputs_trans _ _ _ S1 S2).
        pose proof (IHl (l0 ++ [Some r]) h2) as Hl.
        destruct (construct_children (construct_data f) self l h2) as [h3 res] eqn:E3.
        destruct Hl as [S3 [F3 [N3 [Q3 Z3]]]].
        assert (Rl : map_opt (record_of f h2) l = map_opt (record_of f h) l).
        { apply map_opt_ext. intros x _. apply record_of_same. exact S12. }
        assert (Rch : forall x y, reach h2 x y -> reach h x y).
        { intros x y. apply reach_same. apply same_inputs_sym. exact S12. }
        split; [exact (same_inputs_trans _ _ _ S12 S3)|].
        split.
        { intro m. destruct (F3 m) as [E|[E|[c' [Hc' Hr]]]].
          - rewrite E. unfold h2, upd. destruct (Nat.eqb_spec m self) as [->|_]; [now right; left|].
            destruct (F1 m) as [E'|Hr]; [now left|]. right; right. exists c. split; [now left|exact Hr].
          - now right; left.
          - right; right. exists c'. split; [now right|exact (Rch _ _ Hr)]. }
        split.
        { apply (nd_ok_trans _ h2); [exact S3| |exact N3].
          exact (nd_ok_trans _ _ _ S2 N1 N2). }
        split.
        { destruct res as [u|e]; [|exact I].
          destruct Q3 as [[rs Hrs] B3]. split.
          - cbn [map_opt]. rewrite R1, <- Rl, Hrs. eexists. reflexivity.
          - intros c' m [<-|Hc'] Hr.
            + apply (nd_ok_built h2 h3 m S3 N3). apply (nd_ok_built h1 h2 m S2 N2). exact (B1 m Hr).
            + apply (B3 c' m Hc'). apply (reach_same h h2); [exact S12|exact Hr]. }
        intros NC Ha.
        assert (H1s : h1 self = h self).
        { destruct (F1 self) as [E|Hr]; [exact E|]. exfalso. exact (NC c (or_introl eq_refl) Hr). }
        rewrite H1s, Ha in C1. injection C1 as <-.
        assert (NC2 : forall c', In c' l -> ~ reach h2 c' self).
        { intros c' Hc' Hr. apply (NC c'); [now right|exact (Rch _ _ Hr)]. }
        assert (Ha2 : Child_Nodes (h2 self) = Some (acc ++ [Some r])).
        { unfold h2, upd. rewrite Nat.eqb_refl. apply Child_Nodes_set_Child_Nodes. }
        specialize (Z3 NC2 Ha2). destruct res as [u|e].
        -- intros rs Hrs. cbn [map_opt] in Hrs. rewrite R1, <- Rl in Hrs.
           destruct (map_opt (record_of f h2) l) as [rs'|] eqn:Hm; [|discriminate].
           injection Hrs as <-. rewrite (Z3 rs' eq_refl).
           unfold h2, upd. rewrite Nat.eqb_refl. rewrite H1s, set_Child_Nodes_twice.
           cbn. rewrite <- app_assoc. reflexivity.
        -- cbn [map_opt]. rewrite R1, <- Rl, Z3. reflexivity.
      * split; [exact S1|]. split.
        { intro m. destruct (F1 m) as [E|Hr]; [now left|]. right; right. exists c. split; [now left|exact Hr]. }
        split; [exact N1|]. split; [exact I|].
        intros NC Ha. destruct (F1 self) as [E|Hr]; [|exfalso; exact (NC c (or_introl eq_refl) Hr)].
        rewrite E, Ha in C1. discriminate.
    + destruct Hc as [S1 [F1 [N1 R1]]].
      split; [exact S1|]. split.
      { intro m. destruct (F1 m) as [E|Hr]; [now left|]. right; right. exists c. split; [now left|exact Hr]. }
      split; [exact N1|]. split; [exact I|].
      intros _ _. cbn [map_opt]. rewrite R1. reflexivity.
Qed.

Lemma strip_eq_fields o o' : strip o = strip o' ->
  Name o = Name o' /\ Type_ o = Type_ o' /\ Transform o = Transform o' /\
  Attributes o = Attributes o' /\ Children o = Children o'.
Proof.
  intro E. destruct (strip_fields o) as [A1 [A2 [A3 [A4 A5]]]].
  destruct (strip_fields o') as [B1 [B2 [B3 [B4 B5]]]].
  rewrite E in A1, A2, A3, A4, A5. repeat split; congruence.
Qed.

Lemma construct_data_S_eq f n h :
  construct_data (S f) n h =
  let fin h2 := (upd h2 n (set_NodeData (h2 n)
                   (Some (mkSND (Name (h2 n)) (Type_ (h2 n)) (Transform (h2 n))
                                (Attributes (h2 n)) (Child_Nodes (h2 n))))), Ok None) in
  match Children (h n) with
  | [] => fin (upd h n (set_Child_Nodes (h n) None))
  | cs => match construct_children (construct_data f) n cs
                  (upd h n (set_Child_Nodes (h n) (Some []))) with
          | (h2, Ok _) => fin h2
          | (h2, Err e) => (h2, Err e)
          end
  end.
Proof.
  cbn [construct_data]. unfold bind at 1, get. cbn beta iota.
  destruct (Children (h n)) as [|c cs]; cbn [length Nat.eqb].
  - reflexivity.
  - unfold bind at 1. unfold bind at 1, modify. cbn beta iota.
    destruct (construct_children (construct_data f) n (c :: cs) _) as [h2 [u|e]]; reflexivity.
Qed.

Lemma finish_step f h2 n r :
  record_of f h2 n = Some r ->
  let h3 := upd h2 n (set_NodeData (h2 n) (Some r)) in
  same_inputs h2 h3 /\ nd_ok h2 h3 /\ built h3 n.
Proof.
  intros R h3.
  assert (S3 : same_inputs h2 h3) by (apply same_inputs_upd; apply strip_set_NodeData).
  assert (B : built h3 n).
  { exists f, r. rewrite (record_of_same f h2 h3 n S3). split; [exact R|].
    unfold h3, upd. rewrite Nat.eqb_refl. apply NodeData_set_NodeData. }
  split; [exact S3|]. split; [|exact B].
  intro m. destruct (Nat.eqb_spec m n) as [->|Hm]; [now right|].
  left. unfold h3, upd. apply Nat.eqb_neq in Hm. now rewrite Hm.
Qed.

Lemma reach_leaf h n m : Children (h n) = [] -> reach h n m -> m = n.
Proof. intros E H. destruct H as [x|x y z Hy _]; [reflexivity|]. rewrite E in Hy. destruct Hy. Qed.

Lemma reach_cases h n m : reach h n m -> m = n \/ exists c, In c (Children (h n)) /\ reach h c m.
Proof. intro H. destruct H as [x|x y z Hy Hr]; [now left|right; eauto]. Qed.

Lemma construct_data_spec f n h : construct_data_post f n h.
Proof.
  revert n h. induction f as [|f IH]; intros n h.
  - unfold construct_data_post. cbn. split; [apply same_inputs_refl|].
    split; [intro m; now left|]. split; [apply nd_ok_refl|reflexivity].
  - unfold construct_data_post. rewrite construct_data_S_eq. cbv zeta.
    destruct (Children (h n)) as [|c cs] eqn:Ec.
    + set (h1 := upd h n (set_Child_Nodes (h n) None)).
      assert (S1 : same_inputs h h1) by (apply same_inputs_upd; apply strip_set_Child_Nodes).
      assert (N1 : nd_ok h h1) by (apply nd_ok_upd; apply NodeData_set_Child_Nodes).
      assert (E1 : h1 n = set_Child_Nodes (h n) None) by (unfold h1, upd; now rewrite Nat.eqb_refl).
      set (r := mkSND (Name (h1 n)) (Type_ (h1 n)) (Transform (h1 n)) (Attributes (h1 n)) (Child_Nodes (h1 n))).
      assert (R : record_of (S f) h n = Some r).
      { rewrite record_of_S_eq, Ec. unfold r. rewrite E1, Child_Nodes_set_Child_Nodes.
        destruct (strip_eq_fields _ _ (strip_set_Child_Nodes (h n) None)) as [A1 [A2 [A3 [A4 _]]]].
        now rewrite A1, A2, A3, A4. }
      assert (R1 : record_of (S f) h1 n = Some r) by (rewrite (record_of_same _ h h1 n S1); exact R).
      destruct (finish_step _ _ _ _ R1) as [S2 [N2 B2]].
      split; [exact (same_inputs_trans _ _ _ S1 S2)|]. split.
      { intro m. destruct (Nat.eqb_spec m n) as [->|H]; [right; apply reach_refl|left].
        unfold upd. apply Nat.eqb_neq in H. rewrite H. unfold h1, upd. now rewrite H. }
      split; [exact (nd_ok_trans _ _ _ S2 N1 N2)|].
      split; [reflexivity|]. split.
      { exists r. split; [exact R|]. unfold upd. rewrite Nat.eqb_refl. apply NodeData_set_NodeData. }
      intros m Hm. rewrite (reach_leaf h n m Ec Hm). exact B2.
    + set (h1 := upd h n (set_Child_Nodes (h n) (Some []))).
      assert (S1 : same_inputs h h1) by (apply same_inputs_upd; apply strip_set_Child_Nodes).
      assert (N1 : nd_ok h h1) by (apply nd_ok_upd; apply NodeData_set_Child_Nodes).
      assert (E1 : h1 n = set_Child_Nodes (h n) (Some [])) by (unfold h1, upd; now rewrite Nat.eqb_refl).
      assert (Rch : forall x y, reach h1 x y -> reach h x y).
      { intros x y. apply reach_same. apply same_inputs_sym. exact S1. }
      assert (Rl : map_opt (record_of f h1) (c :: cs) = map_opt (record_of f h) (c :: cs)).
      { apply map_opt_ext. intros x _. apply record_of_same. exact S1. }
      (* a record for [n] rules out a cycle through [n] *)
      assert (NCof : forall rs, map_opt (record_of f h) (c :: cs) = Some rs ->
                     forall c', In c' (c :: cs) -> ~ reach h1 c' n).
      { intros rs Hrs c' Hc' Hr. apply (record_of_no_cycle f h c' n).
        - exact (map_opt_In _ _ _ _ Hrs Hc').
        - exact (Rch _ _ Hr).
        - now rewrite Ec. }
      assert (Ha : Child_Nodes (h1 n) = Some []) by (rewrite E1; apply Child_Nodes_set_Child_Nodes).
      pose proof (construct_children_spec f n (c :: cs) [] h1 IH) as L.
      destruct (construct_children (construct_data f) n (c :: cs) h1) as [h2 [u|e]] eqn:E2;
        destruct L as [S2 [F2 [N2 [Q2 Z2]]]].
      * destruct Q2 as [[rs Hrs] B2]. rewrite Rl in Hrs.
        specialize (Z2 (NCof rs Hrs) Ha rs). rewrite Rl in Z2. specialize (Z2 Hrs).
        cbn [app] in Z2. rewrite E1, set_Child_Nodes_twice in Z2.
        set (r := mkSND (Name (h2 n)) (Type_ (h2 n)) (Transform (h2 n)) (Attributes (h2 n)) (Child_Nodes (h2 n))).
        assert (R : record_of (S f) h n = Some r).
        { rewrite record_of_S_eq, Ec, Hrs. unfold r. rewrite Z2, Child_Nodes_set_Child_Nodes.
          destruct (strip_eq_fields _ _ (strip_set_Child_Nodes (h n) (Some (map Some rs))))
            as [A1 [A2 [A3 [A4 _]]]].
          now rewrite A1, A2, A3, A4. }
        assert (S12 : same_inputs h h2) by exact (same_inputs_trans _ _ _ S1 S2).
        assert (R2 : record_of (S f) h2 n = Some r) by (rewrite (record_of_same _ h h2 n S12); exact R).
        destruct (finish_step _ _ _ _ R2) as [S3 [N3 B3]].
        split; [exact (same_inputs_trans _ _ _ S12 S3)|]. split.
        { intro m. destruct (Nat.eqb_spec m n) as [->|Hmn]; [right; apply reach_refl|].
          unfold upd at 1. apply Nat.eqb_neq in Hmn as Hmn'. rewrite Hmn'.
          destruct (F2 m) as [E|[E|[c' [Hc' Hr]]]]; [|contradiction|].
          - left. rewrite E. unfold h1, upd. now rewrite Hmn'.
          - right. apply (reach_child h n c'); [now rewrite Ec|exact (Rch _ _ Hr)]. }
        split; [exact (nd_ok_trans _ _ _ S3 (nd_ok_trans _ _ _ S2 N1 N2) N3)|].
        split; [reflexivity|]. split.
        { exists r. split; [exact R|]. unfold upd. rewrite Nat.eqb_refl. apply NodeData_set_NodeData. }
        intros m Hm. destruct (reach_cases h n m Hm) as [->|[c' [Hc' Hr]]]; [exact B3|].
        apply (nd_ok_built h2 _ m S3 N3). apply (B2 c' m); [now rewrite <- Ec|].
        exact (reach_same h h1 c' m S1 Hr).
      * split; [exact (same_inputs_trans _ _ _ S1 S2)|]. split.
        { intro m. destruct (Nat.eqb_spec m n) as [->|Hmn]; [right; apply reach_refl|].
          destruct (F2 m) as [E|[E|[c' [Hc' Hr]]]]; [|contradiction|].
          - left. rewrite E. unfold h1, upd. apply Nat.eqb_neq in Hmn. now rewrite Hmn.
          - right. apply (reach_child h n c'); [now rewrite Ec|exact (Rch _ _ Hr)]. }
        split; [exact (nd_ok_trans _ _ _ S2 N1 N2)|].
        rewrite record_of_S_eq, Ec.
        destruct (map_opt (record_of f h) (c :: cs)) as [rs|] eqn:Hrs; [|reflexivity].
        exfalso. specialize (Z2 (NCof rs eq_refl) Ha). rewrite Rl in Z2. discriminate.
Qed.

Lemma map_opt_Some_map {A B} (g k : A -> option B) l rs :
  map_opt g l = Some rs -> (forall x y, In x l -> g x = Some y -> k x = Some y) ->
  map Some rs = map k l.
Proof.
  revert rs. induction l as [|x xs IHl]; intros rs H Hk; cbn in H.
  - now injection H as <-.
  - destruct (g x) as [y|] eqn:E; [|discriminate].
    destruct (map_opt g xs) as [ys|] eqn:E'; [|discriminate]. injection H as <-.
    cbn. rewrite (Hk x y (or_introl eq_refl) E).
    rewrite (IHl ys eq_refl (fun x' y' Hx => Hk x' y' (or_intror Hx))). reflexivity.
Qed.

Lemma built_record h f m r : built h m -> record_of f h m = Some r -> NodeData (h m) = Some r.
Proof.
  intros [g [r' [Hg Hn]]] Hr. rewrite Hn. f_equal. exact (record_of_det _ _ _ _ _ _ Hg Hr).
Qed.

Lemma reach_snoc h x y z : reach h x y -> In z (Children (h y)) -> reach h x z.
Proof.
  intros H Hz. induction H as [x|x y w Hy _ IH].
  - apply (reach_child h x z z Hz). apply reach_refl.
  - exact (reach_child h x y z Hy (IH Hz)).
Qed.

(** Claim C3: after a successful [construct_data] on [n], every node [m] of the
    subtree keeps its [Children], and its record [d] has as children field [None]
    when [Children] is empty, and otherwise the records now stored in the
    children, one per child, in the order of [Children]; none of them is missing.
    The node's record is assembled from these child records, so every child is
    built before its parent. *)
Theorem construct_data_child_records fuel n h h' v m :
  construct_data fuel n h = (h', Ok v) -> reach h n m ->
  Children (h' m) = Children (h m) /\
  exists d, NodeData (h' m) = Some d /\
    sn_Children d = match Children (h m) with
                    | [] => None
                    | cs => Some (map (fun c => NodeData (h' c)) cs)
                    end /\
    (forall c, In c (Children (h m)) -> NodeData (h' c) <> None).
Proof.
  intros Hc Hm. pose proof (construct_data_spec fuel n h) as P. unfold construct_data_post in P.
  rewrite Hc in P. destruct P as [S [_ [_ [_ [_ B]]]]].
  split; [exact (proj2 (proj2 (proj2 (proj2 (same_inputs_fields h h' m S)))))|].
  destruct (B m Hm) as [g [r [R D]]]. rewrite (record_of_same g h h' m S) in R.
  exists r. split; [exact D|].
  destruct g as [|f]; [discriminate|].
  assert (Hch : forall c y, In c (Children (h m)) -> record_of f h c = Some y ->
                            NodeData (h' c) = Some y).
  { intros c y Hin Hy. apply (built_record h' f c y).
    - apply B. exact (reach_snoc h n m c Hm Hin).
    - rewrite (record_of_same f h h' c S). exact Hy. }
  rewrite record_of_S_eq in R. destruct (Children (h m)) as [|c cs] eqn:Ec.
  - injection R as <-. split; [reflexivity|]. intros c [].
  - destruct (map_opt (record_of f h) (c :: cs)) as [rs|] eqn:Hrs; [|discriminate].
    injection R as <-. cbn [sn_Children]. split.
    + f_equal. exact (map_opt_Some_map _ _ _ _ Hrs Hch).
    + intros c' Hc'.
      pose proof (map_opt_In _ _ _ _ Hrs Hc') as Hy.
      destruct (record_of f h c') as [y|] eqn:Ey; [|contradiction].
      rewrite (Hch c' y Hc' Ey). discriminate.
Qed.

(** Claim C4 (amended): [construct_data] returns [None]; the record it builds is
    stored in [NodeData], is what [get_data] returns afterwards, and is made of the
    node's name, type, transform, attributes and its list of child records. *)
Theorem construct_data_returns_None fuel n h h' v :
  construct_data fuel n h = (h', Ok v) ->
  v = None /\
  exists d, NodeData (h' n) = Some d /\ get_data n h' = (h', Ok (Some d)) /\
    d = mkSND (Name (h n)) (Type_ (h n)) (Transform (h n)) (Attributes (h n))
              (Child_Nodes (h' n)).
Proof.
  intro Hc. destruct fuel as [|f]; [discriminate|].
  pose proof (construct_data_spec (S f) n h) as P. unfold construct_data_post in P.
  rewrite Hc in P. destruct P as [S [_ [_ [-> [[r [R D]] _]]]]].
  split; [reflexivity|]. exists r. split; [exact D|]. split.
  { unfold get_data, bind, get, ret. now rewrite D. }
  rewrite construct_data_S_eq in Hc. cbv zeta in Hc.
  destruct (Children (h n)) as [|c cs] eqn:Ec.
  - injection Hc as <-. unfold upd in D |- *. rewrite Nat.eqb_refl in D |- *.
    rewrite NodeData_set_NodeData in D. injection D as <-.
    rewrite Child_Nodes_set_NodeData.
    destruct (strip_eq_fields _ _ (strip_set_Child_Nodes (h n) None)) as [A1 [A2 [A3 [A4 _]]]].
    now rewrite A1, A2, A3, A4.
  - destruct (construct_children (construct_data f) n (c :: cs) _) as [h2 [u|e]] eqn:E2;
      [|discriminate].
    injection Hc as <-. unfold upd in D |- *. rewrite Nat.eqb_refl in D |- *.
    rewrite NodeData_set_NodeData in D. injection D as <-.
    rewrite Child_Nodes_set_NodeData.
    pose proof (construct_children_spec f n (c :: cs) [] (upd h n (set_Child_Nodes (h n) (Some []))) (construct_data_spec f)) as L.
    rewrite E2 in L. destruct L as [S2 _].
    destruct (same_inputs_fields _ _ n S2) as [A1 [A2 [A3 [A4 _]]]].
    rewrite A1, A2, A3, A4. unfold upd. rewrite Nat.eqb_refl.
    destruct (strip_eq_fields _ _ (strip_set_Child_Nodes (h n) (Some []))) as [B1 [B2 [B3 [B4 _]]]].
    now rewrite B1, B2, B3, B4.
Qed.

(** Claim C9: a second [construct_data] on the heap left by a successful first
    call succeeds too, leaves every [NodeData] as the first call left it, and
    changes none of the inputs the records are built from. *)
Theorem construct_data_idempotent fuel n h h1 v :
  construct_data fuel n h = (h1, Ok v) ->
  exists h2, construct_data fuel n h1 = (h2, Ok None) /\
    (forall m, NodeData (h2 m) = NodeData (h1 m)) /\ same_inputs h1 h2.
Proof.
  intro Hc. pose proof (construct_data_spec fuel n h) as P. unfold construct_data_post in P.
  rewrite Hc in P. destruct P as [S1 [_ [_ [_ [[r [R _]] B1]]]]].
  pose proof (construct_data_spec fuel n h1) as P. unfold construct_data_post in P.
  destruct (construct_data fuel n h1) as [h2 [v2|e]].
  - destruct P as [S2 [F2 [N2 [-> _]]]]. exists h2. split; [reflexivity|].
    split; [|exact S2].
    intro m. destruct (N2 m) as [E|Bm]; [exact E|].
    destruct (F2 m) as [E|Hr]; [now rewrite E|].
    destruct Bm as [g [r2 [Hg Hn]]]. rewrite Hn. symmetry.
    apply (built_record h1 g m r2).
    + apply B1. apply (reach_same h1 h); [apply same_inputs_sym; exact S1|exact Hr].
    + rewrite <- (record_of_same g h1 h2 m S2). exact Hg.
  - destruct P as [_ [_ [_ P]]]. rewrite (record_of_same fuel h h1 n S1), R in P. discriminate.
Qed.

Lemma construct_data_child_records_witness :
  let r := construct_data 5 1 sample_tree in
  construct_data 5 1 sample_tree = (fst r, Ok None) /\ reach sample_tree 1 1 /\
  (Children (fst r 1) = Children (sample_tree 1) /\
   exists d, NodeData (fst r 1) = Some d /\
     sn_Children d = match Children (sample_tree 1) with
                     | [] => None
                     | cs => Some (map (fun c => NodeData (fst r c)) cs)
                     end /\
     (forall c, In c (Children (sample_tree 1)) -> NodeData (fst r c) <> None)).
Proof.
  intro r. assert (E : construct_data 5 1 sample_tree = (fst r, Ok None)) by reflexivity.
  split; [exact E|]. split; [apply reach_refl|].
  exact (construct_data_child_records 5 1 sample_tree (fst r) None 1 E (reach_refl _ 1)).
Defined.

(** Claim C4 as stated fails: on the sample scene the call succeeds and returns
    [None], while the root's [NodeData] holds a record. *)
Lemma construct_data_returns_record_counterexample :
  ~ (forall fuel n h h' v, construct_data fuel n h = (h', Ok v) -> v = NodeData (h' n)).
Proof.
  intro H. set (r := construct_data 5 1 sample_tree).
  assert (E : construct_data 5 1 sample_tree = (fst r, Ok None)) by reflexivity.
  specialize (H 5 1 sample_tree (fst r) None E). vm_compute in H. discriminate H.
Qed.

Lemma construct_data_returns_None_witness :
  let r := construct_data 5 1 sample_tree in
  construct_data 5 1 sample_tree = (fst r, Ok None) /\
  (None = @None TkSceneNodeData /\
   exists d, NodeData (fst r 1) = Some d /\ get_data 1 (fst r) = (fst r, Ok (Some d)) /\
     d = mkSND (Name (sample_tree 1)) (Type_ (sample_tree 1)) (Transform (sample_tree 1))
               (Attributes (sample_tree 1)) (Child_Nodes (fst r 1))).
Proof.
  intro r. assert (E : construct_data 5 1 sample_tree = (fst r, Ok None)) by reflexivity.
  split; [exact E|]. exact (construct_data_returns_None 5 1 sample_tree (fst r) None E).
Defined.

Lemma construct_data_idempotent_witness :
  let r := construct_data 5 1 sample_tree in
  construct_data 5 1 sample_tree = (fst r, Ok None) /\
  exists h2, construct_data 5 1 (fst r) = (h2, Ok None) /\
    (forall m, NodeData (h2 m) = NodeData (fst r m)) /\ same_inputs (fst r) h2.
Proof.
  intro r. assert (E : construct_data 5 1 sample_tree = (fst r, Ok None)) by reflexivity.
  split; [exact E|]. exact (construct_data_idempotent 5 1 sample_tree (fst r) None E).
Defined.

(** ** Further properties: tree assembly *)

Lemma populate_meshlist_root fuel self obj h r n l :
  root_path h self r n -> n < fuel -> ListOfMeshes (h r) = Some l ->
  populate_meshlist fuel self obj h =
  (upd h r (set_ListOfMeshes (h r) (Some (l ++ [obj]))), Ok tt).
Proof.
  intros Hp. revert fuel. induction Hp as [x Hx|x p r n Hx _ IH]; intros fuel Hf Hl;
    destruct fuel as [|f]; try lia; cbn [populate_meshlist]; unfold bind at 1, get;
    cbn beta iota.
  - rewrite Hx, Hl. reflexivity.
  - rewrite Hx. apply IH; [lia|exact Hl].
Qed.

Lemma populate_meshlist_Err_same fuel self obj h h' e :
  populate_meshlist fuel self obj h = (h', Err e) -> h' = h.
Proof.
  revert self. induction fuel as [|f IH]; intros self H; cbn [populate_meshlist] in H.
  - unfold raise in H. congruence.
  - unfold bind, get in H. destruct (Parent (h self)) as [p|]; [exact (IH p H)|].
    destruct (ListOfMeshes (h self)); unfold modify, raise in H; congruence.
Qed.

(** Following [Parent] from [m] reaches [c], whose parent is an ancestor of [m]
    again: the chain never ends. *)
Lemma populate_meshlist_loop h c p obj :
  Parent (h c) = Some p -> (p = c \/ desc h c p) ->
  forall fuel m, (m = c \/ desc h c m) ->
  populate_meshlist fuel m obj h = (h, Err RecursionError).
Proof.
  intros Hc Hp fuel. induction fuel as [|f IH]; intros m Hm; [reflexivity|].
  cbn [populate_meshlist]. unfold bind at 1, get. cbn beta iota.
  destruct Hm as [->|Hm].
  - rewrite Hc. apply IH. exact Hp.
  - destruct Hm as [x Hx|x q Hx Hq]; rewrite Hx; apply IH; [now left|now right].
Qed.

Lemma desc_parent_change h h' r x :
  (forall y, y <> r -> Parent (h' y) = Parent (h y)) ->
  desc h r x -> x <> r -> desc h' r x.
Proof.
  intros Hs H. induction H as [x Hx|x q Hx _ IH]; intro Hxr.
  - apply desc_parent. now rewrite Hs.
  - destruct (Nat.eq_dec q r) as [->|Hq].
    + apply desc_parent. now rewrite Hs.
    + apply (desc_step h' r x q); [now rewrite Hs|exact (IH Hq)].
Qed.

Lemma linked_Children h p c m :
  Children (linked h p c m) = if Nat.eqb m p then Children (h p) ++ [c] else Children (h m).
Proof.
  unfold linked, upd. destruct (Nat.eqb m c) eqn:E1; destruct (Nat.eqb m p) eqn:E2;
    rewrite ?Children_set_Parent, ?Children_set_Children;
    try (apply Nat.eqb_eq in E1); try (apply Nat.eqb_eq in E2); subst;
    rewrite ?Nat.eqb_refl, ?E2, ?Children_set_Children; try reflexivity.
  all: try (rewrite Nat.eqb_refl in *; discriminate).
  all: try (destruct (Nat.eqb c p) eqn:E3; [apply Nat.eqb_eq in E3; subst; rewrite Nat.eqb_refl in E2; discriminate|];
            reflexivity).
  all: try (destruct (Nat.eqb p p) eqn:E3; [apply Children_set_Children|rewrite Nat.eqb_refl in E3; discriminate]).
Qed.

(** X: attaching an object that bears no mesh *)
Theorem add_child_non_mesh fuel h p c :
  IsMesh (h c) = false ->
  add_child fuel p c h = (linked h p c, Ok tt) /\
  (forall m, ListOfMeshes (linked h p c m) = ListOfMeshes (h m)).
Proof.
  intro Hm. split; [|intro m; apply linked_LOM].
  rewrite add_child_linked, linked_IsMesh, Hm. reflexivity.
Qed.

(** X: attaching a mesh under a parent whose chain ends at a registry *)
Theorem add_child_mesh_registers fuel h p c r n l :
  root_path h p r n -> n < fuel -> ListOfMeshes (h r) = Some l ->
  c <> p -> ~ desc h c p -> IsMesh (h c) = true ->
  add_child fuel p c h =
  (upd (linked h p c) r (set_ListOfMeshes (linked h p c r) (Some (l ++ [c]))), Ok tt).
Proof.
  intros Hp Hf Hl Hcp Hd Hc. rewrite add_child_linked, linked_IsMesh, Hc.
  apply populate_meshlist_root with (n := n); [|exact Hf|now rewrite linked_LOM].
  apply (root_path_ext h); [exact Hp|].
  intros y Hy. rewrite linked_Parent. destruct (Nat.eqb_spec y c) as [->|_]; [|reflexivity].
  destruct Hy as [->|Hy]; [contradiction|contradiction].
Qed.

(** X: attaching a mesh under itself or under one of its own descendants *)
Theorem add_child_mesh_cycle_RecursionError fuel h p c :
  IsMesh (h c) = true -> (c = p \/ desc h c p) ->
  add_child fuel p c h = (linked h p c, Err RecursionError).
Proof.
  intros Hc Hcp. rewrite add_child_linked, linked_IsMesh, Hc.
  assert (Pc : Parent (linked h p c c) = Some p) by (rewrite linked_Parent, Nat.eqb_refl; reflexivity).
  apply (populate_meshlist_loop _ c p c Pc).
  - destruct Hcp as [->|Hd]; [now left|].
    destruct (Nat.eq_dec p c) as [->|Hpc]; [now left|right].
    apply (desc_parent_change h); [|exact Hd|exact Hpc].
    intros y Hy. rewrite linked_Parent. apply Nat.eqb_neq in Hy. now rewrite Hy.
  - destruct Hcp as [->|Hd]; [now left|].
    destruct (Nat.eq_dec p c) as [->|Hpc]; [now left|right].
    apply (desc_parent_change h); [|exact Hd|exact Hpc].
    intros y Hy. rewrite linked_Parent. apply Nat.eqb_neq in Hy. now rewrite Hy.
Qed.

(** X: what [add_child] does to the tree links, whether or not it raises *)
Theorem add_child_links fuel h p c h' res :
  add_child fuel p c h = (h', res) ->
  (forall m, Children (h' m) = if Nat.eqb m p then Children (h p) ++ [c] else Children (h m)) /\
  (forall m, Parent (h' m) = if Nat.eqb m c then Some p else Parent (h m)).
Proof.
  rewrite add_child_linked. intro H.
  assert (E : forall m, Children (h' m) = Children (linked h p c m) /\
                        Parent (h' m) = Parent (linked h p c m)).
  { destruct (IsMesh (linked h p c c)).
    - destruct res as [u|e].
      + destruct u. destruct (populate_meshlist_Ok _ _ _ _ _ H) as [r [l [_ [_ [_ ->]]]]].
        intro m. unfold upd. destruct (Nat.eqb m r) eqn:E.
        * apply Nat.eqb_eq in E. subst. split; [now destruct (linked h p c r)|now destruct (linked h p c r)].
        * split; reflexivity.
      + rewrite (populate_meshlist_Err_same _ _ _ _ _ _ H). split; reflexivity.
    - injection H as <- _. split; reflexivity. }
  split; intro m; [rewrite (proj1 (E m)); apply linked_Children|rewrite (proj2 (E m)); apply linked_Parent].
Qed.

(** ** Further properties: building the records *)






(** X: [construct_data] writes only [Child_Nodes] and [NodeData], and only of
    objects it reaches through [Children] *)
Theorem construct_data_frame fuel n h h' res :
  construct_data fuel n h = (h', res) ->
  forall m, strip (h' m) = strip (h m) /\ (h' m = h m \/ reach h n m).
Proof.
  intros H m. pose proof (construct_data_spec fuel n h) as P. unfold construct_data_post in P.
  rewrite H in P. destruct P as [S [F _]]. split; [apply S|apply F].
Qed.


(** ** Further properties: attributes *)

Lemma set_Attributes_same o : set_Attributes o (Attributes o) = o.
Proof. now destruct o. Qed.

Ltac unfold_ca :=
  unfold create_attributes, Locator_create_attributes, Joint_create_attributes,
    Emitter_create_attributes, Mesh_create_attributes, Collision_create_attributes,
    Model_create_attributes, Reference_create_attributes, append_from, append_attr,
    bind, getitem, set_attrs, modify, ret, get, raise; cbn beta iota.

Ltac split_ca :=
  repeat match goal with
  | |- context [match ?d with Some _ => _ | None => _ end] =>
      lazymatch d with
      | assoc _ _ => destruct d
      | Some _ => fail
      | None => fail
      | _ => is_var d; destruct d
      end
  | |- context [if py_eq_str ?v ?s then _ else _] => destruct (py_eq_str v s)
  | |- context [if (py_eq_str ?v ?s || ?b) then _ else _] => destruct (py_eq_str v s || b)
  end; cbn beta iota.

Lemma create_attributes_frame_aux self d h h' res :
  create_attributes self d h = (h', res) ->
  h' self = set_Attributes (h self) (Attributes (h' self)) /\ forall y, y <> self -> h' y = h y.
Proof.
  unfold_ca. destruct (cls (h self)); split_ca; intro H; injection H as <- _;
    split; attrs_step; rewrite ?set_Attributes_same; try reflexivity;
    intros y Hy; repeat rewrite upd_neq by exact Hy; reflexivity.
Qed.

(** X: [create_attributes] changes nothing but [self.Attributes], also when it raises *)
Theorem create_attributes_frame self d h h' res :
  create_attributes self d h = (h', res) ->
  h' self = set_Attributes (h self) (Attributes (h' self)) /\ forall y, y <> self -> h' y = h y.
Proof. apply create_attributes_frame_aux. Qed.

(** X: apart from [Collision], a failing [create_attributes] leaves the heap as it was *)
Theorem create_attributes_atomic_failure self d h h' e :
  cls (h self) <> CCollision ->
  create_attributes self d h = (h', Err e) -> h' = h.
Proof.
  intro Hc. unfold_ca. destruct (cls (h self)) eqn:Ec; try congruence;
    split_ca; intro H; injection H; congruence.
Qed.

(** X: a [Collision] of a sub-type it does not know gets the single [TYPE]
    pair, whatever the data, even [None] *)
Theorem Collision_create_attributes_unknown_type self d h :
  cls (h self) = CCollision ->
  let ct := CType (extra (h self)) in
  py_eq_str ct "Mesh" = false -> py_eq_str ct "Box" = false ->
  py_eq_str ct "Sphere" = false -> py_eq_str ct "Capsule" = false ->
  py_eq_str ct "Cylinder" = false ->
  create_attributes self d h =
  (upd h self (set_Attributes (h self) (Some [mkAttr "TYPE" ct])), Ok tt).
Proof.
  intros Hc ct H1 H2 H3 H4 H5. unfold_ca. rewrite Hc. cbn beta iota.
  fold ct. rewrite H1, H2, H3, H4, H5. cbn. reflexivity.
Qed.

(** X: [None] data: [Mesh] and [Model] raise [TypeError] and change nothing;
    a [Collision] of a known sub-type raises [TypeError] after setting its
    [TYPE] pair *)
Theorem create_attributes_None_TypeError self h :
  let err := TypeError "'NoneType' object is not subscriptable" in
  (cls (h self) = CMesh \/ cls (h self) = CModel -> create_attributes self None h = (h, Err err)) /\
  (cls (h self) = CCollision ->
   let ct := CType (extra (h self)) in
   eval_schema [] (collision_schema ct) = None ->
   create_attributes self None h =
   (upd h self (set_Attributes (h self) (Some [mkAttr "TYPE" ct])), Err err)).
Proof.
  intro err. split.
  - intros [Hc|Hc]; unfold_ca; rewrite Hc; reflexivity.
  - intros Hc ct Hs. unfold collision_schema in Hs. unfold_ca. rewrite Hc. cbn beta iota.
    fold ct.
    destruct (py_eq_str ct "Mesh"); [reflexivity|].
    destruct (py_eq_str ct "Box"); [reflexivity|].
    destruct (py_eq_str ct "Sphere"); [reflexivity|].
    destruct (py_eq_str ct "Capsule" || py_eq_str ct "Cylinder"); [reflexivity|].
    discriminate Hs.
Qed.

(** X: a [Collision] whose data lacks a key of its sub-type raises [KeyError]
    for the first missing key, with [Attributes] left holding the [TYPE] pair
    and the pairs of the keys before it *)
Theorem Collision_create_attributes_partial self d h pre k post l :
  cls (h self) = CCollision ->
  collision_schema (CType (extra (h self))) = pre ++ FromData k :: post ->
  eval_schema d pre = Some l -> assoc k d = None ->
  exists h', create_attributes self (Some d) h = (h', Err (KeyError k)) /\
    sets_attributes h h' self (Some (mkAttr "TYPE" (CType (extra (h self))) :: l)).
Proof.
  intros Hc Hs He Hk. unfold collision_schema in Hs. unfold_ca. rewrite Hc. cbn beta iota.
  destruct (py_eq_str (CType (extra (h self))) "Mesh") eqn:T1;
    [|destruct (py_eq_str (CType (extra (h self))) "Box") eqn:T2;
    [|destruct (py_eq_str (CType (extra (h self))) "Sphere") eqn:T3;
    [|destruct (py_eq_str (CType (extra (h self))) "Capsule" ||
                py_eq_str (CType (extra (h self))) "Cylinder") eqn:T4]]].
  all: destruct pre as [|a1 [|a2 [|a3 [|a4 [|a5 [|a6 [|a7 pre]]]]]]]; cbn [app] in Hs;
       inversion Hs; subst; clear Hs.
  all: cbn in He; repeat match type of He with
       | context [assoc ?k' ?d'] =>
           let E := fresh "E" in destruct (assoc k' d') eqn:E; cbn in He; try discriminate He
       end; injection He as <-.
  all: repeat match goal with E : assoc _ _ = _ |- _ => rewrite E; clear E end; cbn.
  all: eexists; split; [reflexivity|].
  all: split; [attrs_step; reflexivity|intros ? ?; repeat rewrite upd_neq by assumption; reflexivity].
Qed.

Lemma cls_set_Attributes o v : cls (set_Attributes o v) = cls o.
Proof. now destruct o. Qed.

Lemma eval_schema_None d s :
  eval_schema d s = None -> exists k, In (FromData k) s /\ assoc k d = None.
Proof.
  induction s as [|a s IH]; cbn; [discriminate|].
  destruct a as [k|k v].
  - destruct (assoc k d) eqn:E.
    + destruct (eval_schema d s); [discriminate|]. intros _.
      destruct (IH eq_refl) as [k' [Hi Hk]]. exists k'. tauto.
    + intros _. exists k. tauto.
  - destruct (eval_schema d s); [discriminate|]. intros _.
    destruct (IH eq_refl) as [k' [Hi Hk]]. exists k'. tauto.
Qed.

Lemma required_keys_In o k : In (FromData k) (attribute_schema o) -> In k (required_keys o).
Proof.
  intro H. unfold required_keys. apply in_flat_map. exists (FromData k). split; [exact H|now left].
Qed.

Lemma attribute_schema_set_Attributes o v :
  attribute_schema (set_Attributes o v) = attribute_schema o.
Proof. now destruct o. Qed.

Lemma create_attributes_Some_Ok self d h h1 :
  create_attributes self (Some d) h = (h1, Ok tt) ->
  exists l, eval_schema d (attribute_schema (h self)) = Some l /\
            sets_attributes h h1 self (Some l) /\ cls (h self) <> CObject.
Proof.
  intro H.
  assert (Hc : cls (h self) <> CObject).
  { intro Ec. unfold create_attributes, bind, get in H. rewrite Ec in H. discriminate H. }
  destruct (eval_schema d (attribute_schema (h self))) as [l|] eqn:He.
  - exists l. split; [reflexivity|]. split; [|exact Hc].
    pose proof (create_attributes_schema h self d l Hc He) as Hs. rewrite H in Hs. apply Hs.
  - destruct (eval_schema_None _ _ He) as [k [Hi Hk]].
    destruct (create_attributes_missing h self d k (required_keys_In _ _ Hi) Hk) as [h' [k' [E _]]].
    congruence.
Qed.

Lemma create_attributes_None_Ok self h h1 :
  create_attributes self None h = (h1, Ok tt) ->
  exists h2, create_attributes self None h1 = (h2, Ok tt) /\ forall m, h2 m = h1 m.
Proof.
  unfold_ca. destruct (cls (h self)) eqn:Ec; intro H; try discriminate H.
  1-3: injection H as <-; unfold_ca; rewrite Ec; cbn beta iota; eexists; split; reflexivity.
  - destruct (py_eq_str (CType (extra (h self))) "Mesh") eqn:T1; [discriminate H|].
    destruct (py_eq_str (CType (extra (h self))) "Box") eqn:T2; [discriminate H|].
    destruct (py_eq_str (CType (extra (h self))) "Sphere") eqn:T3; [discriminate H|].
    destruct (py_eq_str (CType (extra (h self))) "Capsule" ||
              py_eq_str (CType (extra (h self))) "Cylinder") eqn:T4; [discriminate H|].
    injection H as <-. unfold_ca. attrs_step. rewrite ?cls_set_Attributes, ?Ec. cbn beta iota.
    attrs_step. rewrite T1, T2, T3, T4. cbn beta iota. eexists; split; [reflexivity|].
    intro m. destruct (Nat.eq_dec m self) as [->|Hm];
      [attrs_step; reflexivity|rewrite !upd_neq by exact Hm; reflexivity].
  - injection H as <-. unfold_ca. attrs_step. rewrite ?cls_set_Attributes, ?Ec. cbn beta iota.
    eexists; split; [reflexivity|].
    intro m. destruct (Nat.eq_dec m self) as [->|Hm];
      [attrs_step; reflexivity|rewrite !upd_neq by exact Hm; reflexivity].
Qed.

(** X: a successful [create_attributes] run again on its result changes nothing *)
Theorem create_attributes_idempotent self d h h1 :
  create_attributes self d h = (h1, Ok tt) ->
  exists h2, create_attributes self d h1 = (h2, Ok tt) /\ forall m, h2 m = h1 m.
Proof.
  destruct d as [d|]; [|apply create_attributes_None_Ok].
  intro H. destruct (create_attributes_Some_Ok self d h h1 H) as [l [He [[E1 E2] Hc]]].
  assert (He' : eval_schema d (attribute_schema (h1 self)) = Some l)
    by now rewrite E1, attribute_schema_set_Attributes.
  assert (Hc' : cls (h1 self) <> CObject) by now rewrite E1, cls_set_Attributes.
  pose proof (create_attributes_schema h1 self d l Hc' He') as Hs.
  destruct (create_attributes self (Some d) h1) as [h2 r]. destruct Hs as [-> [F1 F2]].
  exists h2. split; [reflexivity|]. intro m.
  destruct (Nat.eq_dec m self) as [->|Hm]; [|now apply F2].
  rewrite F1, E1, set_Attributes_twice. reflexivity.
Qed.

(** X: the attribute list of a [Mesh] *)
Theorem Mesh_create_attributes_layout self d h v1 v2 v3 v4 v5 v6 :
  cls (h self) = CMesh ->
  assoc "BATCHSTART" d = Some v1 -> assoc "BATCHCOUNT" d = Some v2 ->
  assoc "VERTRSTART" d = Some v3 -> assoc "VERTREND" d = Some v4 ->
  assoc "MATERIAL" d = Some v5 -> assoc "ATTACHMENT" d = Some v6 ->
  create_attributes self (Some d) h =
  (upd h self (set_Attributes (h self)
     (Some [mkAttr "BATCHSTART" v1; mkAttr "BATCHCOUNT" v2; mkAttr "VERTRSTART" v3;
            mkAttr "VERTREND" v4; mkAttr "FIRSTSKINMAT" (VInt 0);
            mkAttr "LASTSKINMAT" (VInt 0); mkAttr "MATERIAL" v5;
            mkAttr "MESHLINK" (VStr (Name (h self) ++ "Shape")); mkAttr "ATTACHMENT" v6])),
   Ok tt).
Proof.
  intros Hc E1 E2 E3 E4 E5 E6. unfold_ca. rewrite Hc. cbn beta iota.
  rewrite E1, E2, E3, E4, E5, E6. reflexivity.
Qed.

(** ** Further properties: construction *)

Lemma included_streams_loop_members names o :
  let o' := included_streams_loop names o in
  extra o' = extra o /\
  forall s, (In s (provided_streams o) -> In s (provided_streams o')) /\
            (In s names -> dict_get o s <> VNone -> In s (provided_streams o')).
Proof.
  revert o. induction names as [|x xs IH]; intro o; cbn [included_streams_loop].
  - split; [reflexivity|]. intro s. split; [tauto|intros []].
  - set (o1 := if negb (is_none (dict_get o x))
               then set_provided_streams o (set_add (provided_streams o) x) else o).
    assert (X1 : extra o1 = extra o).
    { unfold o1. destruct (negb _); [apply extra_set_provided_streams|reflexivity]. }
    assert (P1 : forall s, In s (provided_streams o) -> In s (provided_streams o1)).
    { intros s Hs. unfold o1. destruct (negb _); [|exact Hs].
      rewrite provided_streams_set. apply set_add_In. now left. }
    assert (D1 : dict_get o1 = dict_get o) by (unfold dict_get; now rewrite X1).
    destruct (IH o1) as [Xe Hm]. split; [congruence|]. intro s. split.
    + intro Hs. apply (proj1 (Hm s)). exact (P1 s Hs).
    + intros [<-|Hs] Hd.
      * apply (proj1 (Hm x)). unfold o1. destruct (dict_get o x); try contradiction;
          cbn; rewrite provided_streams_set; apply set_add_In; now right.
      * apply (proj2 (Hm s) Hs). now rewrite D1.
Qed.

Lemma included_streams_loop_fixed names o :
  (forall s, In s names -> dict_get o s <> VNone -> In s (provided_streams o)) ->
  included_streams_loop names o = o.
Proof.
  induction names as [|x xs IH]; intro H; [reflexivity|]. cbn [included_streams_loop].
  destruct (is_none (dict_get o x)) eqn:En; cbn [negb].
  - apply IH. intros s Hs. apply H. now right.
  - assert (Hx : In x (provided_streams o)).
    { apply H; [now left|]. intro E. rewrite E in En. discriminate. }
    unfold set_add. replace (existsb (String.eqb x) (provided_streams o)) with true
      by (symmetry; apply existsb_exists; exists x; split; [exact Hx|apply String.eqb_refl]).
    replace (set_provided_streams o (provided_streams o)) with o by (now destruct o).
    apply IH. intros s Hs. apply H. now right.
Qed.

(** X: [determine_included_streams] keeps the streams already recorded, and a
    second call changes nothing *)
Theorem determine_included_streams_idempotent o :
  (forall s, In s (provided_streams o) -> In s (provided_streams (determine_included_streams o))) /\
  determine_included_streams (determine_included_streams o) = determine_included_streams o.
Proof.
  unfold determine_included_streams.
  destruct (included_streams_loop_members stream_names o) as [Xe Hm].
  split; [intro s; apply (proj1 (Hm s))|].
  apply included_streams_loop_fixed. intros s Hs Hd. apply (proj2 (Hm s) Hs).
  unfold dict_get in *. now rewrite Xe in Hd.
Qed.

Lemma included_streams_loop_set names o :
  exists l, included_streams_loop names o = set_provided_streams o l.
Proof.
  revert o. induction names as [|x xs IH]; intro o; cbn [included_streams_loop].
  - exists (provided_streams o). now destruct o.
  - destruct (negb _).
    + destruct (IH (set_provided_streams o (set_add (provided_streams o) x))) as [l ->].
      exists l. now destruct o.
    + apply IH.
Qed.

(** X: every class other than [Joint] and [Emitter] constructs, with its type
    tag, no links, and a mesh registry exactly for [Model] *)
Theorem constructors_succeed name kw :
  (exists o, Locator name kw = Ok o /\ initialised o CLocator name "LOCATOR" false kw) /\
  (exists o, Mesh name kw = Ok o /\ initialised o CMesh name "MESH" true kw) /\
  (exists o, Collision name kw = Ok o /\
     initialised o CCollision name "COLLISION"
       (py_eq_str (kwget kw "CollisionType" (VStr "Mesh")) "Mesh") kw) /\
  (exists o, Model name kw = Ok o /\ initialised o CModel name "MODEL" false kw) /\
  (exists o, Reference name kw = Ok o /\ initialised o CReference name "REFERENCE" false kw).
Proof.
  unfold Locator, Mesh, Collision, Model, Reference, Locator___init__, Mesh___init__,
    Collision___init__, Model___init__, Reference___init__, super___init__.
  cbn [issubclass Cls_eqb orb cls new_instance rbind Object___init__].
  split; [|split; [|split; [|split]]]; cbn -[determine_included_streams].
  all: try (destruct (py_eq_str (kwget kw "CollisionType" (VStr "Mesh")) "Mesh")).
  all: eexists; (split; [reflexivity|]).
  all: unfold initialised.
  all: try match goal with |- context [determine_included_streams ?o] =>
         destruct (included_streams_loop_set stream_names o) as [? E];
         unfold determine_included_streams; rewrite E; clear E end; cbn.
  all: idtac.
  all: repeat split.

Qed.

(** X: a [Collision] of type Mesh records its provided streams as a [Mesh]
    does; one of any other type records none and takes its four dimensions
    from the keyword arguments, 0 by default *)
Theorem Collision_streams_and_dimensions name kw :
  exists o, Collision name kw = Ok o /\ NoDup (provided_streams o) /\
    if py_eq_str (kwget kw "CollisionType" (VStr "Mesh")) "Mesh" then
      forall s, In s (provided_streams o) <->
                In s stream_names /\ kwget kw s VNone <> VNone
    else
      provided_streams o = [] /\ Width (extra o) = kwget kw "Width" (VInt 0) /\
      Height (extra o) = kwget kw "Height" (VInt 0) /\
      Depth (extra o) = kwget kw "Depth" (VInt 0) /\
      Radius (extra o) = kwget kw "Radius" (VInt 0).
Proof.
  unfold Collision, Collision___init__, super___init__.
  cbn -[determine_included_streams].
  destruct (py_eq_str (kwget kw "CollisionType" (VStr "Mesh")) "Mesh").
  - eexists. split; [reflexivity|].
    match goal with
    | |- context [determine_included_streams ?o] =>
        destruct (included_streams_loop_spec stream_names o (NoDup_nil _))
          as [H1 [_ H3]]
    end.
    split; [exact H1|]. intro s. unfold determine_included_streams. rewrite H3.
    cbn [provided_streams]. split.
    + intros [[]|[Hi Hv]]. split; [exact Hi|].
      repeat destruct Hi as [<-|Hi]; try contradiction; exact Hv.
    + intros [Hi Hv]. right. split; [exact Hi|].
      repeat destruct Hi as [<-|Hi]; try contradiction; exact Hv.
  - eexists. split; [reflexivity|]. cbn. repeat split. constructor.
Qed.

(** X: [populate_meshlist] appends [obj] to the registry of the parentless
    object its [Parent] chain reaches, and changes nothing else *)
Theorem populate_meshlist_appends_at_root fuel self obj h r n l :
  root_path h self r n -> n < fuel -> ListOfMeshes (h r) = Some l ->
  populate_meshlist fuel self obj h =
  (upd h r (set_ListOfMeshes (h r) (Some (l ++ [obj]))), Ok tt).
Proof. apply populate_meshlist_root. Qed.

(** X: a failing [populate_meshlist] leaves the heap as it was, and fails only
    for a missing registry or for the recursion depth *)
Theorem populate_meshlist_failure_unchanged fuel self obj h h' e :
  populate_meshlist fuel self obj h = (h', Err e) ->
  h' = h /\ (e = AttributeError "ListOfMeshes" \/ e = RecursionError).
Proof.
  intro H. split; [exact (populate_meshlist_Err_same _ _ _ _ _ _ H)|].
  revert self H. induction fuel as [|f IH]; intros self H; cbn [populate_meshlist] in H.
  - unfold raise in H. injection H as _ <-. now right.
  - unfold bind, get in H. destruct (Parent (h self)) as [p|]; [exact (IH p H)|].
    destruct (ListOfMeshes (h self)); unfold modify, raise in H; [discriminate H|].
    injection H as _ <-. now left.
Qed.

(** X: on a cycle of [Parent] links, [populate_meshlist] raises
    [RecursionError] whatever the recursion depth *)
Theorem populate_meshlist_cycle_RecursionError fuel c p obj h :
  Parent (h c) = Some p -> (p = c \/ desc h c p) ->
  populate_meshlist fuel c obj h = (h, Err RecursionError).
Proof. intros Hc Hp. apply (populate_meshlist_loop h c p obj Hc Hp). now left. Qed.

(** ** Instances of the further properties *)

Lemma add_child_non_mesh_witness :
  IsMesh (sample_heap 2) = false /\
  add_child 10 1 2 sample_heap = (linked sample_heap 1 2, Ok tt) /\
  (forall m, ListOfMeshes (linked sample_heap 1 2 m) = ListOfMeshes (sample_heap m)).
Proof.
  split; [reflexivity|]. apply (add_child_non_mesh 10 sample_heap 1 2). reflexivity.
Defined.

Lemma add_child_mesh_registers_witness :
  root_path sample_heap 1 1 0 /\ 0 < 10 /\ ListOfMeshes (sample_heap 1) = Some [] /\
  3 <> 1 /\ ~ desc sample_heap 3 1 /\ IsMesh (sample_heap 3) = true /\
  add_child 10 1 3 sample_heap =
  (upd (linked sample_heap 1 3) 1
     (set_ListOfMeshes (linked sample_heap 1 3 1) (Some ([] ++ [3]))), Ok tt).
Proof.
  assert (Hp : root_path sample_heap 1 1 0) by (apply rp_here; reflexivity).
  assert (Hd : ~ desc sample_heap 3 1) by (intro D; apply (desc_has_parent _ _ _ D); reflexivity).
  split; [exact Hp|split; [lia|split; [reflexivity|split; [lia|split; [exact Hd|
    split; [reflexivity|]]]]]].
  apply (add_child_mesh_registers 10 sample_heap 1 3 1 0 []); [exact Hp|lia|reflexivity|lia|exact Hd|reflexivity].
Defined.

Lemma add_child_mesh_cycle_RecursionError_witness :
  let h := heap1 (ok_or_blank (Mesh "M1" [])) in
  IsMesh (h 1) = true /\ (1 = 1 \/ desc h 1 1) /\
  add_child 10 1 1 h = (linked h 1 1, Err RecursionError).
Proof.
  intro h. split; [reflexivity|split; [now left|]].
  apply (add_child_mesh_cycle_RecursionError 10 h 1 1); [reflexivity|now left].
Defined.

Lemma add_child_links_witness :
  let r := add_child 10 1 3 sample_heap in
  add_child 10 1 3 sample_heap = (fst r, snd r) /\
  (forall m, Children (fst r m) =
             if Nat.eqb m 1 then Children (sample_heap 1) ++ [3] else Children (sample_heap m)) /\
  (forall m, Parent (fst r m) = if Nat.eqb m 3 then Some 1 else Parent (sample_heap m)).
Proof.
  intro r. assert (E : add_child 10 1 3 sample_heap = (fst r, snd r)) by reflexivity.
  split; [exact E|]. exact (add_child_links 10 sample_heap 1 3 (fst r) (snd r) E).
Defined.



Lemma construct_data_frame_witness :
  let r := construct_data 5 1 sample_tree in
  construct_data 5 1 sample_tree = (fst r, snd r) /\
  forall m, strip (fst r m) = strip (sample_tree m) /\
            (fst r m = sample_tree m \/ reach sample_tree 1 m).
Proof.
  intro r. assert (E : construct_data 5 1 sample_tree = (fst r, snd r)) by reflexivity.
  split; [exact E|]. exact (construct_data_frame 5 1 sample_tree (fst r) (snd r) E).
Defined.

Lemma create_attributes_frame_witness :
  let h := heap1 (ok_or_blank (Collision "C1" [("CollisionType", VStr "Box")])) in
  let r := create_attributes 1 (Some [("WIDTH", VInt 2)]) h in
  create_attributes 1 (Some [("WIDTH", VInt 2)]) h = (fst r, snd r) /\
  fst r 1 = set_Attributes (h 1) (Attributes (fst r 1)) /\
  forall y, y <> 1 -> fst r y = h y.
Proof.
  intros h r. assert (E : create_attributes 1 (Some [("WIDTH", VInt 2)]) h = (fst r, snd r))
    by reflexivity.
  split; [exact E|]. exact (create_attributes_frame 1 _ h (fst r) (snd r) E).
Defined.

Lemma create_attributes_atomic_failure_witness :
  let h := heap1 (ok_or_blank (Mesh "M1" [])) in
  let r := create_attributes 1 (Some [("BATCHSTART", VInt 0)]) h in
  cls (h 1) <> CCollision /\
  create_attributes 1 (Some [("BATCHSTART", VInt 0)]) h = (fst r, Err (KeyError "BATCHCOUNT")) /\
  fst r = h.
Proof.
  intros h r.
  assert (E : create_attributes 1 (Some [("BATCHSTART", VInt 0)]) h
              = (fst r, Err (KeyError "BATCHCOUNT"))) by reflexivity.
  split; [discriminate|split; [exact E|]].
  apply (create_attributes_atomic_failure 1 (Some [("BATCHSTART", VInt 0)]) h (fst r) (KeyError "BATCHCOUNT")); [discriminate|exact E].
Defined.

Lemma Collision_create_attributes_unknown_type_witness :
  let h := heap1 (ok_or_blank (Collision "C1" [("CollisionType", VStr "Cone")])) in
  cls (h 1) = CCollision /\
  py_eq_str (VStr "Cone") "Mesh" = false /\ py_eq_str (VStr "Cone") "Box" = false /\
  py_eq_str (VStr "Cone") "Sphere" = false /\ py_eq_str (VStr "Cone") "Capsule" = false /\
  py_eq_str (VStr "Cone") "Cylinder" = false /\
  create_attributes 1 None h =
  (upd h 1 (set_Attributes (h 1) (Some [mkAttr "TYPE" (VStr "Cone")])), Ok tt).
Proof.
  intro h. repeat (split; [reflexivity|]).
  exact (Collision_create_attributes_unknown_type 1 None h eq_refl eq_refl eq_refl
           eq_refl eq_refl eq_refl).
Defined.

Lemma create_attributes_None_TypeError_witness :
  let hm := heap1 (ok_or_blank (Mesh "M1" [])) in
  let hc := heap1 (ok_or_blank (Collision "C1" [("CollisionType", VStr "Box")])) in
  let err := TypeError "'NoneType' object is not subscriptable" in
  (cls (hm 1) = CMesh /\ create_attributes 1 None hm = (hm, Err err)) /\
  (cls (hc 1) = CCollision /\ eval_schema [] (collision_schema (VStr "Box")) = None /\
   create_attributes 1 None hc =
   (upd hc 1 (set_Attributes (hc 1) (Some [mkAttr "TYPE" (VStr "Box")])), Err err)).
Proof.
  intros hm hc err. split.
  - split; [reflexivity|]. apply (proj1 (create_attributes_None_TypeError 1 hm)). now left.
  - split; [reflexivity|split; [reflexivity|]].
    exact (proj2 (create_attributes_None_TypeError 1 hc) eq_refl eq_refl).
Defined.

Lemma Collision_create_attributes_partial_witness :
  let h := heap1 (ok_or_blank (Collision "C1" [("CollisionType", VStr "Box")])) in
  let d := [("WIDTH", VInt 2); ("DEPTH", VInt 3)] in
  cls (h 1) = CCollision /\
  collision_schema (CType (extra (h 1))) = [FromData "WIDTH"] ++ FromData "HEIGHT" :: [FromData "DEPTH"] /\
  eval_schema d [FromData "WIDTH"] = Some [mkAttr "WIDTH" (VInt 2)] /\ assoc "HEIGHT" d = None /\
  exists h', create_attributes 1 (Some d) h = (h', Err (KeyError "HEIGHT")) /\
    sets_attributes h h' 1 (Some [mkAttr "TYPE" (VStr "Box"); mkAttr "WIDTH" (VInt 2)]).
Proof.
  intros h d. repeat (split; [reflexivity|]).
  exact (Collision_create_attributes_partial 1 d h [FromData "WIDTH"] "HEIGHT" [FromData "DEPTH"]
           [mkAttr "WIDTH" (VInt 2)] eq_refl eq_refl eq_refl eq_refl).
Defined.

Lemma create_attributes_idempotent_witness :
  let h := heap1 (ok_or_blank (Collision "C1" [("CollisionType", VStr "Sphere")])) in
  let r := create_attributes 1 (Some [("RADIUS", VInt 2)]) h in
  create_attributes 1 (Some [("RADIUS", VInt 2)]) h = (fst r, Ok tt) /\
  exists h2, create_attributes 1 (Some [("RADIUS", VInt 2)]) (fst r) = (h2, Ok tt) /\
    forall m, h2 m = fst r m.
Proof.
  intros h r. assert (E : create_attributes 1 (Some [("RADIUS", VInt 2)]) h = (fst r, Ok tt))
    by reflexivity.
  split; [exact E|]. exact (create_attributes_idempotent 1 _ h (fst r) E).
Defined.

Lemma Mesh_create_attributes_layout_witness :
  let h := heap1 (ok_or_blank (Mesh "M1" [])) in
  let d := [("BATCHSTART", VInt 0); ("BATCHCOUNT", VInt 6); ("VERTRSTART", VInt 0);
            ("VERTREND", VInt 3); ("MATERIAL", VStr "mat"); ("ATTACHMENT", VStr "att")] in
  cls (h 1) = CMesh /\
  create_attributes 1 (Some d) h =
  (upd h 1 (set_Attributes (h 1)
     (Some [mkAttr "BATCHSTART" (VInt 0); mkAttr "BATCHCOUNT" (VInt 6);
            mkAttr "VERTRSTART" (VInt 0); mkAttr "VERTREND" (VInt 3);
            mkAttr "FIRSTSKINMAT" (VInt 0); mkAttr "LASTSKINMAT" (VInt 0);
            mkAttr "MATERIAL" (VStr "mat"); mkAttr "MESHLINK" (VStr "M1Shape");
            mkAttr "ATTACHMENT" (VStr "att")])), Ok tt).
Proof.
  intros h d. split; [reflexivity|].
  exact (Mesh_create_attributes_layout 1 d h _ _ _ _ _ _ eq_refl eq_refl eq_refl eq_refl
           eq_refl eq_refl eq_refl).
Defined.

Lemma populate_meshlist_appends_at_root_witness :
  root_path sample_tree 3 1 1 /\ 1 < 10 /\ ListOfMeshes (sample_tree 1) = Some [3] /\
  populate_meshlist 10 3 7 sample_tree =
  (upd sample_tree 1 (set_ListOfMeshes (sample_tree 1) (Some ([3] ++ [7]))), Ok tt).
Proof.
  assert (Hp : root_path sample_tree 3 1 1)
    by (apply (rp_up _ 3 1); [reflexivity|apply rp_here; reflexivity]).
  split; [exact Hp|split; [lia|split; [reflexivity|]]].
  apply (populate_meshlist_appends_at_root 10 3 7 sample_tree 1 1 [3]); [exact Hp|lia|reflexivity].
Defined.

Lemma populate_meshlist_failure_unchanged_witness :
  let h := heap1 (ok_or_blank (Locator "L1" [])) in
  populate_meshlist 10 1 2 h = (h, Err (AttributeError "ListOfMeshes")) /\
  h = h /\ (AttributeError "ListOfMeshes" = AttributeError "ListOfMeshes" \/
           AttributeError "ListOfMeshes" = RecursionError).
Proof.
  intro h. assert (E : populate_meshlist 10 1 2 h = (h, Err (AttributeError "ListOfMeshes")))
    by reflexivity.
  split; [exact E|]. exact (populate_meshlist_failure_unchanged 10 1 2 h h _ E).
Defined.

Lemma populate_meshlist_cycle_RecursionError_witness :
  let h := heap1 (set_Parent (ok_or_blank (Model "Root" [])) (Some 1)) in
  Parent (h 1) = Some 1 /\ (1 = 1 \/ desc h 1 1) /\
  populate_meshlist 10 1 2 h = (h, Err RecursionError).
Proof.
  intro h. split; [reflexivity|split; [now left|]].
  apply (populate_meshlist_cycle_RecursionError 10 1 1 2 h); [reflexivity|now left].
Defined.
